(** * twinny: context assembly and streaming completion pipeline

    A shallow embedding of the chunker and the stream decoder of
    [src/extension/utils.ts] and of the retrieval code-block assembly and the
    session controller of the [ChatService] class ([chat-service.ts]), with
    the properties of the specification stated and settled against it.

    Conventions.
    - JavaScript strings are modelled by [string]; their [length] is the
      number of code units.  Numbers that the code uses as sizes, indices and
      counts are modelled by [Z] (the code only ever adds, subtracts and
      compares them).
    - [undefined] is modelled by [None] in an [option], and so is [null]
      where the code only tests the value ([?.], [||], a condition,
      [filter(Boolean)]); where a value is converted to text, [None] is
      [undefined].  A thrown exception is the [Throw] constructor of
      [completion].
    - Mutable fields of [ChatService] live in a record that every method
      takes and returns. *)

From Stdlib Require Import ZArith Ascii String QArith.
From stdpp Require Import base tactics option list strings.

Local Open Scope Z_scope.

(** ** JavaScript primitives used by the sources *)

Module JS.

(** *** Completion records: a normal value or a thrown exception *)

Inductive exn : Type :=
| TypeError
| SyntaxError
| RangeError (message : string)
| SystemError (code : string).

Inductive completion (A : Type) : Type :=
| Return (a : A)
| Throw (e : exn).
Arguments Return {A} a.
Arguments Throw {A} e.

#[global] Instance completion_ret : MRet completion := fun _ a => Return a.

#[global] Instance completion_bind : MBind completion := fun _ _ k c =>
  match c with
  | Return a => k a
  | Throw e => Throw e
  end.

(** [try { c } catch (e) { h e }] *)
Definition try_catch {A} (c : completion A) (h : exn -> completion A) : completion A :=
  match c with
  | Return a => Return a
  | Throw e => h e
  end.

(** *** Strings *)

Definition len (s : string) : Z := Z.of_nat (String.length s).

(** Relative index resolution of [String.prototype.slice]: a negative index
    counts from the end, and the result is clamped to [0, len]. *)
Definition clamp_index (l i : Z) : Z :=
  if i <? 0 then Z.max (l + i) 0 else Z.min i l.

(** [s.slice(a, b)]; [b = None] is the one-argument form [s.slice(a)]. *)
Definition slice (s : string) (a : Z) (b : option Z) : string :=
  let l := len s in
  let from := clamp_index l a in
  let to := match b with Some b => clamp_index l b | None => l end in
  String.substring (Z.to_nat from) (Z.to_nat (Z.max (to - from) 0)) s.

(** ToBoolean on a string: the empty string is falsy. *)
Definition truthy (s : string) : bool :=
  match s with EmptyString => false | String _ _ => true end.

(** ToBoolean on [string | undefined | null]. *)
Definition truthy_opt (o : option string) : bool :=
  match o with Some s => truthy s | None => false end.

(** White space and line terminators of the Latin-1 range, as recognised by
    [trim], [trimStart] and [trimEnd]. *)
Definition is_white (c : ascii) : bool :=
  match c with
  | "009" | "010" | "011" | "012" | "013" | " " | "160" => true
  | _ => false
  end%char.

Fixpoint trimStart (s : string) : string :=
  match s with
  | EmptyString => EmptyString
  | String c s' => if is_white c then trimStart s' else s
  end.

Fixpoint trimEnd (s : string) : string :=
  match s with
  | EmptyString => EmptyString
  | String c s' =>
      match trimEnd s' with
      | EmptyString => if is_white c then EmptyString else String c EmptyString
      | t => String c t
      end
  end.

Definition trim (s : string) : string := trimEnd (trimStart s).

(** [s.startsWith(p)] *)
Definition startsWith (s p : string) : bool := String.prefix p s.

(** String concatenation [a + b] where [b] may be [undefined]: ToString of
    [undefined] is the nine characters of its name.  ([null] would convert
    to ["null"]; no value converted here stands for [null].) *)
Definition toString_opt (o : option string) : string :=
  match o with Some s => s | None => "undefined" end.

Definition concat_opt (a : string) (b : option string) : string :=
  a +:+ toString_opt b.

(** *** Arrays *)

(** The largest length an array can have; [push] beyond it throws
    [RangeError: Invalid array length]. *)
Definition MAX_ARRAY_LENGTH : Z := 2 ^ 32 - 1.

Definition push {A} (arr : list A) (x : A) : completion (list A) :=
  if Z.of_nat (length arr) >=? MAX_ARRAY_LENGTH
  then Throw (RangeError "Invalid array length")
  else Return (arr ++ [x]).

(** [arr.filter((x, index) => p x index)] *)
Fixpoint filter_from {A} (p : A -> Z -> bool) (i : Z) (arr : list A) : list A :=
  match arr with
  | [] => []
  | x :: arr' =>
      if p x i then x :: filter_from p (i + 1) arr' else filter_from p (i + 1) arr'
  end.

Definition filter_indexed {A} (p : A -> Z -> bool) (arr : list A) : list A :=
  filter_from p 0 arr.

(** *** Length lemmas *)

Lemma len_nonneg s : 0 <= len s.
Proof. unfold len. lia. Qed.

Lemma len_empty : len "" = 0.
Proof. reflexivity. Qed.

Lemma length_app s t :
  String.length (s +:+ t) = (String.length s + String.length t)%nat.
Proof. induction s as [|c s IH]; simpl; [reflexivity | now rewrite IH]. Qed.

Lemma len_app s t : len (s +:+ t) = len s + len t.
Proof. unfold len. rewrite length_app. lia. Qed.

Lemma len_zero_empty s : len s = 0 -> s = "".
Proof. destruct s; [reflexivity | unfold len; simpl; lia]. Qed.

Lemma truthy_len s : truthy s = true <-> 0 < len s.
Proof. destruct s; unfold len; simpl; split; intros; try lia; congruence. Qed.

Lemma length_substring n m s :
  String.length (String.substring n m s) = Nat.min m (String.length s - n).
Proof.
  revert n m. induction s as [|c s IH]; intros [|n] [|m]; simpl;
    try reflexivity.
  - rewrite IH. f_equal. lia.
  - rewrite IH. reflexivity.
  - rewrite IH. reflexivity.
Qed.

Lemma substring_all s : String.substring 0 (String.length s) s = s.
Proof. induction s as [|c s IH]; simpl; [reflexivity | now rewrite IH]. Qed.

Lemma len_slice_le s a b : len (slice s a b) <= len s.
Proof. unfold slice, len. rewrite length_substring. lia. Qed.

Lemma clamp_index_inside l i : 0 <= i <= l -> clamp_index l i = i.
Proof.
  intros Hi. unfold clamp_index.
  destruct (Z.ltb_spec i 0); lia.
Qed.

Lemma clamp_index_above l i : 0 <= l <= i -> clamp_index l i = l.
Proof.
  intros Hi. unfold clamp_index.
  destruct (Z.ltb_spec i 0); lia.
Qed.

Lemma slice_whole s b : len s <= b -> slice s 0 (Some b) = s.
Proof.
  intros Hb. pose proof (len_nonneg s) as Hs. unfold slice.
  rewrite (clamp_index_inside (len s) 0) by lia.
  rewrite (clamp_index_above (len s) b) by lia.
  replace (Z.to_nat (Z.max (len s - 0) 0)) with (String.length s)
    by (unfold len; lia).
  apply substring_all.
Qed.

(** Appending the empty string leaves a text as it is. *)
Lemma concat_opt_empty text : concat_opt text (Some "") = text.
Proof.
  unfold concat_opt, toString_opt.
  induction text as [|c text IH]; [reflexivity |].
  change (String c text +:+ "") with (String c (text +:+ "")).
  now rewrite IH.
Qed.

End JS.

(** ** Document chunker ([utils.ts]: [combineChunks], [simpleChunk]) *)

Module Chunker.
Import JS.

(** [ChunkOptions]: every field is optional. *)
Record ChunkOptions : Type := mkChunkOptions {
  minSize : option Z;
  maxSize : option Z;
  overlap : option Z
}.

(** Destructuring defaults [{ minSize = 50, maxSize = 500, overlap = 50 }]. *)
Definition minSize_of (o : ChunkOptions) : Z := default 50 (minSize o).
Definition maxSize_of (o : ChunkOptions) : Z := default 500 (maxSize o).
Definition overlap_of (o : ChunkOptions) : Z := default 50 (overlap o).

Definition defaultOptions : ChunkOptions := mkChunkOptions None None None.

(** *** [combineChunks] *)

(** One iteration of the [for (const chunk of chunks)] loop; the state is
    [(result, currentChunk)]. *)
Definition combine_step (minS maxS ov : Z)
    (st : list string * string) (chunk : string) : list string * string :=
  let '(result, currentChunk) := st in
  let '(result, currentChunk) :=
    if len currentChunk + len chunk >? maxS then
      if len currentChunk >=? minS
      then (result ++ [currentChunk], chunk)
      else (result, currentChunk +:+ " " +:+ chunk)
    else
      (result, currentChunk +:+ (if truthy currentChunk then " " else "") +:+ chunk)
  in
  if len currentChunk >=? maxS - ov
  then (result ++ [currentChunk], slice currentChunk (- ov) None)
  else (result, currentChunk).

Definition combineChunks (chunks : list string) (options : ChunkOptions)
    : list string :=
  let minS := minSize_of options in
  let maxS := maxSize_of options in
  let ov := overlap_of options in
  let '(result, currentChunk) :=
    foldl (combine_step minS maxS ov) ([], "") chunks in
  if len currentChunk >=? minS then result ++ [currentChunk] else result.

(** *** [simpleChunk] *)

(** [msg.includes(needle)] *)
Definition includes (msg needle : string) : bool :=
  match String.index 0 needle msg with Some _ => true | None => false end.

(** [start = end - overlap > start ? end - overlap : end] *)
Definition next_start (start end_ ov : Z) : Z :=
  if end_ - ov >? start then end_ - ov else end_.

(** [Math.min(start + maxSize, content.length)] *)
Definition window_end (content : string) (maxS start : Z) : Z :=
  Z.min (start + maxS) (len content).

Inductive loop_exit : Type :=
| Continue (start : Z) (chunks : list string)
| Break (chunks : list string).

(** The body of the [while] loop, run with [start < content.length]. *)
Definition simpleChunk_body (content : string) (maxS ov : Z)
    (start : Z) (chunks : list string) : completion loop_exit :=
  let end_ := window_end content maxS start in
  let chunk := slice content start (Some end_) in
  match push chunks chunk with
  | Throw (RangeError message) =>
      if includes message "Invalid array length"
      then Return (Break chunks)
      else Throw (RangeError message)
  | Throw e => Throw e
  | Return chunks' =>
      let start' := next_start start end_ ov in
      if end_ =? len content
      then Return (Break chunks')
      else Return (Continue start' chunks')
  end.

(** The [while (start < content.length)] loop.  [None] means that the loop
    was still running when the fuel ran out. *)
Fixpoint simpleChunk_loop (fuel : nat) (content : string) (maxS ov : Z)
    (start : Z) (chunks : list string) : option (completion (list string)) :=
  if start <? len content then
    match fuel with
    | O => None
    | S fuel' =>
        match simpleChunk_body content maxS ov start chunks with
        | Throw e => Some (Throw e)
        | Return (Break chunks') => Some (Return chunks')
        | Return (Continue start' chunks') =>
            simpleChunk_loop fuel' content maxS ov start' chunks'
        end
    end
  else Some (Return chunks).

(** [chunks.filter((chunk, index) =>
       chunk.length >= minSize || index === chunks.length - 1)] *)
Definition keep_chunks (minS : Z) (chunks : list string) : list string :=
  filter_indexed
    (fun chunk index =>
       (len chunk >=? minS) || (index =? Z.of_nat (length chunks) - 1))
    chunks.

Definition simpleChunk (fuel : nat) (content : string) (options : ChunkOptions)
    : option (completion (list string)) :=
  let minS := minSize_of options in
  let maxS := maxSize_of options in
  let ov := overlap_of options in
  match simpleChunk_loop fuel content maxS ov 0 [] with
  | None => None
  | Some (Throw e) => Some (Throw e)
  | Some (Return chunks) => Some (Return (keep_chunks minS chunks))
  end.

(** *** Facts about [combineChunks] *)

Section CombineBound.
Variables minS maxS ov : Z.

(** The bound that the accumulator obeys when no input fragment is longer
    than [maxS]: an accumulator shorter than [minS] absorbs the next
    fragment whatever its size, and the separator is added after the size
    test. *)
Definition combine_bound : Z := maxS + Z.max 1 minS.

Definition combine_inv (st : list string * string) : Prop :=
  Forall (fun f => len f <= combine_bound) st.1 /\ len st.2 <= combine_bound.

Lemma combine_step_inv st chunk :
  len chunk <= maxS ->
  combine_inv st ->
  combine_inv (combine_step minS maxS ov st chunk).
Proof.
  destruct st as [result cur]. unfold combine_inv, combine_step, combine_bound.
  simpl. intros Hc [Hres Hcur].
  pose proof (len_nonneg cur) as Hn. pose proof (len_nonneg chunk) as Hn'.
  set (st1 :=
    if len cur + len chunk >? maxS then
      if len cur >=? minS then (result ++ [cur], chunk)
      else (result, cur +:+ " " +:+ chunk)
    else (result, cur +:+ (if truthy cur then " " else "") +:+ chunk)).
  assert (Forall (fun f => len f <= maxS + Z.max 1 minS) st1.1 /\
          len st1.2 <= maxS + Z.max 1 minS) as [H1 H2].
  { subst st1.
    destruct (Z.gtb_spec (len cur + len chunk) maxS) as [Hgt|Hle].
    - destruct (Z.geb_spec (len cur) minS) as [Hge|Hlt]; simpl.
      + split; [apply Forall_app; split; [assumption | repeat constructor; lia] | lia].
      + split; [assumption |]. rewrite !len_app. change (len " ") with 1. lia.
    - simpl. split; [assumption |]. rewrite !len_app.
      destruct (truthy cur); [change (len " ") with 1 | change (len "") with 0]; lia. }
  destruct st1 as [result1 cur1]. simpl in *.
  destruct (len cur1 >=? maxS - ov); simpl.
  - split.
    + apply Forall_app; split; [assumption | repeat constructor; lia].
    + pose proof (len_slice_le cur1 (- ov) None). lia.
  - split; assumption.
Qed.

Lemma combine_fold_inv chunks st :
  Forall (fun c => len c <= maxS) chunks ->
  combine_inv st ->
  combine_inv (foldl (combine_step minS maxS ov) st chunks).
Proof.
  intros Hall. revert st.
  induction Hall as [|chunk chunks Hc _ IH]; intros st Hst; simpl.
  - exact Hst.
  - apply IH. apply combine_step_inv; assumption.
Qed.
End CombineBound.

(** *** Facts about [simpleChunk] *)

Lemma includes_invalid_array_length :
  includes "Invalid array length" "Invalid array length" = true.
Proof. reflexivity. Qed.

Lemma window_end_gt content maxS start :
  1 <= maxS -> start < len content -> start < window_end content maxS start.
Proof. unfold window_end. lia. Qed.

Lemma next_start_gt start end_ ov : start < end_ -> start < next_start start end_ ov.
Proof.
  intros H. unfold next_start.
  destruct (Z.gtb_spec (end_ - ov) start); lia.
Qed.

Lemma next_start_stride content maxS ov start :
  1 <= maxS ->
  window_end content maxS start <> len content ->
  next_start start (window_end content maxS start) ov
  = start + (if ov <? maxS then maxS - ov else maxS).
Proof.
  intros HmaxS Hend. unfold next_start.
  assert (window_end content maxS start = start + maxS) as ->
    by (unfold window_end in *; lia).
  destruct (Z.gtb_spec (start + maxS - ov) start);
    destruct (Z.ltb_spec ov maxS); lia.
Qed.

(** What one iteration does: it never throws, and it either leaves the loop
    or continues with [next_start]. *)
Lemma simpleChunk_body_cases content maxS ov start chunks :
  (exists chunks', simpleChunk_body content maxS ov start chunks = Return (Break chunks'))
  \/ (exists chunks',
        window_end content maxS start <> len content /\
        simpleChunk_body content maxS ov start chunks
        = Return (Continue (next_start start (window_end content maxS start) ov) chunks')).
Proof.
  unfold simpleChunk_body, push.
  destruct (Z.of_nat (length chunks) >=? MAX_ARRAY_LENGTH).
  - rewrite includes_invalid_array_length. left. eauto.
  - destruct (Z.eqb_spec (window_end content maxS start) (len content)) as [He|Hne];
      [left | right]; eauto.
Qed.

Lemma simpleChunk_loop_terminates content maxS ov fuel :
  1 <= maxS ->
  forall start chunks,
    (Z.to_nat (len content - start) <= fuel)%nat ->
    exists r, simpleChunk_loop fuel content maxS ov start chunks = Some (Return r).
Proof.
  intros HmaxS. induction fuel as [|fuel IH]; intros start chunks Hfuel.
  - simpl. destruct (Z.ltb_spec start (len content)); [lia | eauto].
  - simpl. destruct (Z.ltb_spec start (len content)) as [Hlt|Hge]; [| eauto].
    destruct (simpleChunk_body_cases content maxS ov start chunks)
      as [[chunks' ->] | [chunks' [Hne ->]]]; [eauto |].
    apply IH.
    pose proof (window_end_gt content maxS start HmaxS Hlt) as Hw.
    pose proof (next_start_gt start _ ov Hw). lia.
Qed.

(** More fuel does not change a result already reached. *)
Lemma simpleChunk_loop_fuel_mono content maxS ov fuel fuel' :
  (fuel <= fuel')%nat ->
  forall start chunks r,
    simpleChunk_loop fuel content maxS ov start chunks = Some r ->
    simpleChunk_loop fuel' content maxS ov start chunks = Some r.
Proof.
  revert fuel'. induction fuel as [|fuel IH]; intros fuel' Hle start chunks r.
  - simpl. destruct fuel'; simpl;
      destruct (start <? len content); congruence.
  - destruct fuel' as [|fuel']; [lia |]. simpl.
    destruct (start <? len content); [| congruence].
    destruct (simpleChunk_body content maxS ov start chunks) as [[s' c'|c']|e];
      try congruence.
    apply IH. lia.
Qed.

Lemma keep_chunks_singleton minS chunk : keep_chunks minS [chunk] = [chunk].
Proof.
  unfold keep_chunks, filter_indexed. simpl.
  now rewrite orb_true_r.
Qed.

(** *** Properties of the chunker *)

(** Claim C2, as the code has it.  When no input fragment is longer than
    [maxSize], every fragment that [combineChunks] emits is at most
    [maxSize + max 1 minSize] long: the accumulator can pass [maxSize]
    because an accumulator shorter than [minSize] absorbs the next fragment
    unconditionally. *)
Theorem combineChunks_emits_bounded chunks options :
  0 <= maxSize_of options ->
  Forall (fun c => len c <= maxSize_of options) chunks ->
  Forall (fun f => len f <= maxSize_of options + Z.max 1 (minSize_of options))
         (combineChunks chunks options).
Proof.
  intros HmaxS Hall. unfold combineChunks.
  pose proof (combine_fold_inv (minSize_of options) (maxSize_of options)
                (overlap_of options) chunks ([], "") Hall) as Hinv.
  destruct (foldl _ _ chunks) as [result cur].
  destruct Hinv as [Hres Hcur].
  { split; [constructor | unfold combine_bound; simpl; change (len "") with 0; lia]. }
  simpl in Hres, Hcur. unfold combine_bound in *.
  destruct (len cur >=? minSize_of options); [| assumption].
  apply Forall_app; split; [assumption | repeat constructor; assumption].
Qed.

Lemma combineChunks_emits_bounded_witness :
  Forall (fun f => len f <= 5 + Z.max 1 3)
         (combineChunks ["ab"; "cdef"] (mkChunkOptions (Some 3) (Some 5) (Some 1))).
Proof.
  apply (combineChunks_emits_bounded ["ab"; "cdef"]
           (mkChunkOptions (Some 3) (Some 5) (Some 1))).
  - unfold maxSize_of; simpl; lia.
  - repeat constructor; vm_compute; discriminate.
Defined.

(** Claim C2, as the specification words it, fails: with [minSize = 3],
    [maxSize = 5] and [overlap = 1] the fragments ["ab"] and ["cdef"], neither
    longer than [maxSize], are combined into one fragment of length 7. *)
Lemma combineChunks_exceeds_maxSize :
  let options := mkChunkOptions (Some 3) (Some 5) (Some 1) in
  let chunks := ["ab"; "cdef"] in
  Forall (fun c => len c <= maxSize_of options) chunks /\
  combineChunks chunks options = ["ab cdef"] /\
  ~ Forall (fun f => len f <= maxSize_of options) (combineChunks chunks options).
Proof.
  split; [| split].
  - repeat constructor; vm_compute; discriminate.
  - reflexivity.
  - intros H. apply Forall_inv in H. vm_compute in H. congruence.
Qed.

(** The same with the default options: a 10-character fragment followed by a
    495-character one gives a fragment of 506 characters. *)
Example combineChunks_default_options_exceed :
  let a := String.concat "" (replicate 10 "a") in
  let b := String.concat "" (replicate 495 "b") in
  (len a <= 500 /\ len b <= 500) /\
  map len (combineChunks [a; b] defaultOptions) = [506; 50].
Proof. vm_compute. repeat split; intros H; discriminate H. Qed.

(** The bound is reached: with the default options a 49-character fragment
    followed by a 500-character one gives a fragment of 550 characters. *)
Example combineChunks_bound_is_reached :
  let a := String.concat "" (replicate 49 "a") in
  let b := String.concat "" (replicate 500 "b") in
  map len (combineChunks [a; b] defaultOptions) = [500 + Z.max 1 50; 50].
Proof. vm_compute. reflexivity. Qed.

(** Claim C9, as the code has it.  Content that is not empty, shorter than
    [minSize] and no longer than [maxSize] (so one window covers it) comes
    back as exactly one fragment, the content itself; empty content gives
    the empty sequence. *)
Theorem simpleChunk_short_content content options fuel :
  (content <> "" ->
   len content < minSize_of options ->
   len content <= maxSize_of options ->
   simpleChunk (S fuel) content options = Some (Return [content]))
  /\ simpleChunk fuel "" options = Some (Return []).
Proof.
  split.
  - intros Hne Hmin Hmax.
    assert (0 < len content) as Hpos.
    { pose proof (len_nonneg content). destruct (Z.eq_dec (len content) 0) as [E|E];
        [apply len_zero_empty in E; contradiction | lia]. }
    unfold simpleChunk. simpl.
    destruct (Z.ltb_spec 0 (len content)); [| lia].
    unfold simpleChunk_body, push. simpl length.
    change (Z.of_nat 0 >=? MAX_ARRAY_LENGTH) with false. cbv iota.
    assert (window_end content (maxSize_of options) 0 = len content) as ->
      by (unfold window_end; lia).
    rewrite Z.eqb_refl, slice_whole by lia.
    rewrite app_nil_l. now rewrite keep_chunks_singleton.
  - unfold simpleChunk. destruct fuel; reflexivity.
Qed.

Lemma simpleChunk_short_content_witness :
  simpleChunk 1 "const x = 1" defaultOptions = Some (Return ["const x = 1"])
  /\ simpleChunk 0 "" defaultOptions = Some (Return []).
Proof.
  destruct (simpleChunk_short_content "const x = 1" defaultOptions 0) as [H1 _].
  destruct (simpleChunk_short_content "const x = 1" defaultOptions 0) as [_ H2].
  split.
  - apply H1; [discriminate | vm_compute; reflexivity | vm_compute; discriminate].
  - exact H2.
Defined.

(** Claim C9, as the specification words it, fails when the content is
    longer than [maxSize]: with [minSize = 50] and [maxSize = 10] a
    25-character content is cut into three windows, all shorter than
    [minSize], and only the last one survives the filter. *)
Lemma simpleChunk_short_content_not_whole :
  let options := mkChunkOptions (Some 50) (Some 10) (Some 0) in
  let content := "abcdefghijklmnopqrstuvwxy" in
  content <> "" /\
  len content < minSize_of options /\
  simpleChunk 3 content options = Some (Return ["uvwxy"]) /\
  simpleChunk 3 content options <> Some (Return [content]).
Proof. repeat split; try discriminate; reflexivity. Qed.

(** Claim C10.  With [maxSize >= 1] every iteration of the loop moves the
    window start strictly forward; an iteration that does not leave the loop
    moves it by [maxSize - overlap], or by the whole window [maxSize] when
    [overlap >= maxSize]; no iteration throws; and the loop ends: fuel equal
    to the content length is enough for [simpleChunk] to return. *)
Theorem simpleChunk_advances_and_terminates content options :
  1 <= maxSize_of options ->
  (forall start,
      start < len content ->
      start < next_start start (window_end content (maxSize_of options) start)
                (overlap_of options))
  /\ (forall start chunks start' chunks',
        start < len content ->
        simpleChunk_body content (maxSize_of options) (overlap_of options)
          start chunks = Return (Continue start' chunks') ->
        start < start' /\
        start' = start + (if overlap_of options <? maxSize_of options
                          then maxSize_of options - overlap_of options
                          else maxSize_of options))
  /\ (forall fuel,
        (Z.to_nat (len content) <= fuel)%nat ->
        exists chunks, simpleChunk fuel content options = Some (Return chunks)).
Proof.
  intros HmaxS. split; [| split].
  - intros start Hlt. apply next_start_gt, window_end_gt; assumption.
  - intros start chunks start' chunks' Hlt Hbody.
    destruct (simpleChunk_body_cases content (maxSize_of options)
                (overlap_of options) start chunks)
      as [[c Hc] | [c [Hne Hc]]]; rewrite Hc in Hbody; [discriminate |].
    injection Hbody as <- _. split.
    + apply next_start_gt, window_end_gt; assumption.
    + apply next_start_stride; assumption.
  - intros fuel Hfuel. unfold simpleChunk.
    destruct (simpleChunk_loop_terminates content (maxSize_of options)
                (overlap_of options) fuel HmaxS 0 []) as [r ->]; [lia |].
    eauto.
Qed.

Lemma simpleChunk_advances_and_terminates_witness :
  exists chunks,
    simpleChunk 25 "abcdefghijklmnopqrstuvwxy"
      (mkChunkOptions (Some 5) (Some 10) (Some 12)) = Some (Return chunks).
Proof.
  destruct (simpleChunk_advances_and_terminates "abcdefghijklmnopqrstuvwxy"
              (mkChunkOptions (Some 5) (Some 10) (Some 12))) as (_ & _ & H).
  - unfold maxSize_of; simpl; lia.
  - apply (H 25%nat). vm_compute. lia.
Defined.

(** With [overlap >= maxSize] the windows are laid side by side. *)
Example simpleChunk_overlap_ge_maxSize :
  simpleChunk 25 "abcdefghijklmnopqrstuvwxy"
    (mkChunkOptions (Some 5) (Some 10) (Some 12))
  = Some (Return ["abcdefghij"; "klmnopqrst"; "uvwxy"]).
Proof. reflexivity. Qed.

(** With [maxSize = 0] the window start never moves and the loop does not
    end by itself. *)
Example simpleChunk_maxSize_zero_stalls :
  simpleChunk_body "abc" 0 0 0 [] = Return (Continue 0 [""]).
Proof. reflexivity. Qed.

End Chunker.

(** ** Stream decoder ([utils.ts]: [getChatDataFromProvider],
       [getFimDataFromProvider], [safeParseJsonResponse]) *)

Module Decoder.
Import JS.

(** Modelled from the spec: the provider kinds.  The decoders switch on a
    provider string and compare it with [apiProviders.Ollama],
    [apiProviders.OpenWebUI], [apiProviders.LlamaCpp] and
    [apiProviders.LiteLLM]; the strings themselves are in [common/types],
    which is not among the sources.  A provider string equal to none of
    them takes the [default] branch and is an [OtherProvider]. *)
Inductive provider : Type :=
| Ollama
| OpenWebUI
| LlamaCpp
| LiteLLM
| OtherProvider (name : string).

(** [StreamResponse], with the fields that the decoders read: [response],
    [content], and [choices] with [text] and [delta.content].  A field that
    is absent is [None].  A field that holds [null] passes every test of the
    decoders like an absent one, but the LlamaCpp branch hands [content] on
    untested and a [null] there converts to another text than [undefined]
    does: responses with a [null] field are outside the model. *)
Record Delta : Type := mkDelta { delta_content : option string }.

Record Choice : Type := mkChoice {
  text : option string;
  delta : option Delta
}.

Record StreamResponse : Type := mkStreamResponse {
  response : option string;
  content : option string;
  choices : option (list Choice)
}.

(** Property reads.  Reading a property of [undefined] throws a
    [TypeError]; reading index 0 of an empty array gives [undefined]. *)

(** [choices[0]] *)
Definition index0 (cs : option (list Choice)) : completion (option Choice) :=
  match cs with
  | None => Throw TypeError
  | Some l => Return (head l)
  end.

(** [c.delta] *)
Definition get_delta (c : option Choice) : completion (option Delta) :=
  match c with
  | None => Throw TypeError
  | Some c => Return (delta c)
  end.

(** [c.text] *)
Definition get_text (c : option Choice) : completion (option string) :=
  match c with
  | None => Throw TypeError
  | Some c => Return (text c)
  end.

(** [d.content] *)
Definition get_content (d : option Delta) : completion (option string) :=
  match d with
  | None => Throw TypeError
  | Some d => Return (delta_content d)
  end.

(** [d?.content] *)
Definition get_content_opt (d : option Delta) : completion (option string) :=
  match d with
  | None => Return None
  | Some d => Return (delta_content d)
  end.

(** [cs.length] *)
Definition get_length (cs : option (list Choice)) : completion Z :=
  match cs with
  | None => Throw TypeError
  | Some l => Return (Z.of_nat (length l))
  end.

(** [data?.choices[0].delta?.content]: the whole chain is [undefined] when
    [data] is. *)
Definition chat_delta_content_opt (data : option StreamResponse)
    : completion (option string) :=
  match data with
  | None => Return None
  | Some d =>
      c ← index0 (choices d);
      dl ← get_delta c;
      get_content_opt dl
  end.

(** [data?.choices[0].delta.content] *)
Definition chat_delta_content (data : option StreamResponse)
    : completion (option string) :=
  match data with
  | None => Return None
  | Some d =>
      c ← index0 (choices d);
      dl ← get_delta c;
      get_content dl
  end.

(** [data?.choices[0].text] *)
Definition choice_text (data : option StreamResponse)
    : completion (option string) :=
  match data with
  | None => Return None
  | Some d =>
      c ← index0 (choices d);
      get_text c
  end.

(** [v === 'undefined'] *)
Definition is_literal_undefined (v : option string) : bool :=
  match v with
  | Some s => String.eqb s "undefined"
  | None => false
  end.

(** [data?.choices[0].delta?.content ? data?.choices[0].delta.content : ''] *)
Definition delta_content_or_empty (data : option StreamResponse)
    : completion (option string) :=
  v ← chat_delta_content_opt data;
  if truthy_opt v then chat_delta_content data else Return (Some "").

Definition getChatDataFromProvider (p : provider) (data : option StreamResponse)
    : completion (option string) :=
  match p with
  | Ollama | OpenWebUI => delta_content_or_empty data
  | LlamaCpp => Return (data ≫= content)
  | LiteLLM | OtherProvider _ =>
      v ← chat_delta_content data;
      if is_literal_undefined v then Return (Some "")
      else delta_content_or_empty data
  end.

Definition getFimDataFromProvider (p : provider) (data : option StreamResponse)
    : completion (option string) :=
  match p with
  | Ollama | OpenWebUI => Return (data ≫= response)
  | LlamaCpp => Return (data ≫= content)
  | LiteLLM => chat_delta_content data
  | OtherProvider _ =>
      match data with
      | None => Return None
      | Some d =>
          n ← get_length (choices d);
          if n =? 0 then Return None
          else
            t ← choice_text data;
            if is_literal_undefined t then Return (Some "")
            else
              t ← choice_text data;
              if truthy_opt t then choice_text data else Return (Some "")
      end
  end.

Definition isStreamWithDataPrefix (stringBuffer : string) : bool :=
  startsWith stringBuffer "data:".

(** [stringBuffer.split('data:')[1]] for a buffer that starts with ["data:"]:
    the text between the first and the second occurrence of the
    separator. *)
Definition split_data_1 (stringBuffer : string) : string :=
  let rest := String.substring 5 (String.length stringBuffer - 5) stringBuffer in
  match String.index 0 "data:" rest with
  | Some i => String.substring 0 i rest
  | None => rest
  end.

Section Parse.

(** [JSON.parse], cast to [StreamResponse | undefined]: it throws a
    [SyntaxError] on text that is not JSON. *)
Variable JSON_parse : string -> completion (option StreamResponse).

(** The text handed to [JSON.parse]. *)
Definition payload (stringBuffer : string) : string :=
  if isStreamWithDataPrefix stringBuffer
  then split_data_1 stringBuffer
  else stringBuffer.

Definition safeParseJsonResponse (stringBuffer : string)
    : completion (option StreamResponse) :=
  try_catch
    (if isStreamWithDataPrefix stringBuffer
     then JSON_parse (split_data_1 stringBuffer)
     else JSON_parse stringBuffer)
    (fun _ => Return None).

End Parse.

(** A response whose [choices[0].delta.content] is [c]. *)
Definition chat_payload (c : string) : StreamResponse :=
  mkStreamResponse None None (Some [mkChoice None (Some (mkDelta (Some c)))]).

(** The content field of a chat payload: [choices[0].delta.content]. *)
Definition has_delta_content (d : StreamResponse) (c : string) : Prop :=
  exists ch rest dl,
    choices d = Some (ch :: rest) /\ delta ch = Some dl /\
    delta_content dl = Some c.

(** The text field of a completion payload: [choices[0].text]. *)
Definition has_choice_text (d : StreamResponse) (c : string) : Prop :=
  exists ch rest, choices d = Some (ch :: rest) /\ text ch = Some c.

(** A fragment of [JSON.parse] for the examples: it accepts the empty
    object and rejects everything else.  It agrees with [JSON.parse] on the
    texts it is applied to below. *)
Definition parse_empty_object (text : string) : completion (option StreamResponse) :=
  if String.eqb (trim text) "{}"
  then Return (Some (mkStreamResponse None None None))
  else Throw SyntaxError.

(** Modelled from the spec: [extractDelta], the decode boundary of the
    stream reader ([stream.ts], which is not among the sources).  The raw
    chunk goes through [safeParseJsonResponse]; a chunk that fails to parse
    yields no delta, which is the empty fragment and not an error; a chunk
    that parses is handed to the chat decoder, whose parameter type admits
    no [undefined]. *)
Definition extractDelta (JSON_parse : string -> completion (option StreamResponse))
    (p : provider) (rawChunk : string) : completion (option string) :=
  data ← safeParseJsonResponse JSON_parse rawChunk;
  match data with
  | None => Return (Some "")
  | Some streamResponse => getChatDataFromProvider p (Some streamResponse)
  end.

(** *** Facts about the decoders *)

Lemma chat_delta_content_of d c :
  has_delta_content d c -> chat_delta_content (Some d) = Return (Some c).
Proof.
  intros (ch & rest & dl & Hch & Hdl & Hc).
  unfold chat_delta_content. rewrite Hch. simpl. rewrite Hdl. simpl.
  now rewrite Hc.
Qed.

Lemma choice_text_of d c :
  has_choice_text d c -> choice_text (Some d) = Return (Some c).
Proof.
  intros (ch & rest & Hch & Ht).
  unfold choice_text. rewrite Hch. simpl. now rewrite Ht.
Qed.

Lemma safeParseJsonResponse_never_throws JSON_parse stringBuffer :
  exists r, safeParseJsonResponse JSON_parse stringBuffer = Return r.
Proof.
  unfold safeParseJsonResponse, try_catch.
  destruct (isStreamWithDataPrefix stringBuffer);
    match goal with |- context [JSON_parse ?t] => destruct (JSON_parse t) end;
    eauto.
Qed.

Lemma safeParseJsonResponse_malformed JSON_parse stringBuffer e :
  JSON_parse (payload stringBuffer) = Throw e ->
  safeParseJsonResponse JSON_parse stringBuffer = Return None.
Proof.
  unfold safeParseJsonResponse, payload, try_catch.
  destruct (isStreamWithDataPrefix stringBuffer); intros ->; reflexivity.
Qed.

(** *** Properties of the decoders *)

(** Claim C3, as the code has it.  The guard against the literal string
    ["undefined"] sits in the LiteLLM/default branch of the chat decoder, on
    [choices[0].delta.content], and in the default branch of the
    fill-in-middle decoder, on [choices[0].text]: there the result is the
    empty string. *)
Theorem literal_undefined_guarded d :
  (has_delta_content d "undefined" ->
   getChatDataFromProvider LiteLLM (Some d) = Return (Some "") /\
   forall name,
     getChatDataFromProvider (OtherProvider name) (Some d) = Return (Some ""))
  /\ (has_choice_text d "undefined" ->
      forall name,
        getFimDataFromProvider (OtherProvider name) (Some d) = Return (Some "")).
Proof.
  split.
  - intros H. apply chat_delta_content_of in H.
    unfold getChatDataFromProvider. rewrite H. simpl. split; reflexivity.
  - intros H name. pose proof (choice_text_of _ _ H) as Ht.
    destruct H as (ch & rest & Hch & _).
    unfold getFimDataFromProvider. rewrite Ht, Hch. simpl. reflexivity.
Qed.

Lemma literal_undefined_guarded_witness :
  getChatDataFromProvider LiteLLM (Some (chat_payload "undefined"))
  = Return (Some "").
Proof.
  destruct (literal_undefined_guarded (chat_payload "undefined")) as [H _].
  apply H. exists (mkChoice None (Some (mkDelta (Some "undefined")))), [],
    (mkDelta (Some "undefined")). repeat split; reflexivity.
Defined.

(** Claim C3, as the specification words it, fails: the Ollama branch of the
    chat decoder, and the Ollama and LiteLLM branches of the fill-in-middle
    decoder, hand the literal on. *)
Lemma literal_undefined_passes_through :
  has_delta_content (chat_payload "undefined") "undefined" /\
  getChatDataFromProvider Ollama (Some (chat_payload "undefined"))
  = Return (Some "undefined") /\
  getFimDataFromProvider LiteLLM (Some (chat_payload "undefined"))
  = Return (Some "undefined") /\
  getFimDataFromProvider Ollama
    (Some (mkStreamResponse (Some "undefined") None None))
  = Return (Some "undefined").
Proof.
  split; [| repeat split; reflexivity].
  exists (mkChoice None (Some (mkDelta (Some "undefined")))), [],
    (mkDelta (Some "undefined")). repeat split; reflexivity.
Qed.



(** The same for a truncated chunk that carries no prefix; a chunk that
    parses is decoded by the provider's branch. *)
Example extractDelta_scenarios :
  extractDelta parse_empty_object Ollama "{" = Return (Some "") /\
  extractDelta parse_empty_object LlamaCpp "data: {}"
  = getChatDataFromProvider LlamaCpp (Some (mkStreamResponse None None None)).
Proof. split; reflexivity. Qed.

End Decoder.

(** ** Retrieval ([chat-service.ts]: [readFileContent], [getRelevantCode]) *)

Module Retrieval.
Import JS.

(** *** Values that reach [Array.prototype.join] *)

#[local] Set Warnings "-register-all".

Inductive value : Type :=
| VUndefined
| VNull
| VString (s : string)
| VArray (elements : list value).

(** The separator-joined concatenation of the elements' strings. *)
Definition join_with (str : value -> string) (sep : string)
    : list value -> string :=
  fix go (l : list value) : string :=
    match l with
    | [] => ""
    | [x] => str x
    | x :: rest => str x +:+ sep +:+ go rest
    end.

(** ToString.  An array converts with [join(",")], and inside a join
    [undefined] and [null] elements convert to the empty string. *)
Fixpoint toString (v : value) : string :=
  match v with
  | VUndefined => "undefined"
  | VNull => "null"
  | VString s => s
  | VArray l =>
      join_with
        (fun x => match x with VUndefined | VNull => "" | _ => toString x end)
        "," l
  end.

(** [arr.join(sep)] *)
Definition Array_join (sep : string) (arr : list value) : string :=
  join_with
    (fun x => match x with VUndefined | VNull => "" | _ => toString x end)
    sep arr.

(** [arr.filter(Boolean)] on an array of [string | null | undefined]. *)
Definition filter_Boolean (arr : list (option string)) : list string :=
  omap (fun o => match o with
                 | Some s => if truthy s then Some s else None
                 | None => None
                 end) arr.

Definition newline : string := String "010" "".

(** The returned expression of [getRelevantCode]:
    [[readFileChunks.filter(Boolean), documentChunks.filter(Boolean)]
       .join('\n\n').trim()] *)
Definition code_block (readFileChunks documentChunks : list (option string))
    : string :=
  trim (Array_join (newline +:+ newline)
          [VArray (map VString (filter_Boolean readFileChunks));
           VArray (map VString (filter_Boolean documentChunks))]).

(** The code block in the words of the specification: each group joined by
    newlines, a blank line between the groups, the whole trimmed. *)
Definition spec_code_block (reads fragments : list string) : string :=
  trim (String.concat newline reads +:+ newline +:+ newline
        +:+ String.concat newline fragments).

(** *** The retrieval environment *)

Record EmbeddedDocument : Type := mkEmbeddedDocument {
  doc_content : option string
}.

Section WithNumbers.

(** Scores and thresholds are JavaScript numbers; the code compares them
    with [>] and tests the stored threshold for truthiness. *)
Variable number : Type.
Variable gt : number -> number -> bool.
Variable number_truthy : number -> bool.

(** Constants of [common/constants]. *)
Variable DEFAULT_RERANK_THRESHOLD : number.
Variable RELEVANT_CODE_COUNT : Z.

Variable embedding : Type.

(** The collaborators of [getRelevantCode]: the embedding database, the
    reranker, the stored configuration and the file system. *)
Record Env : Type := mkEnv {
  db : bool;
  workspace_name : option string;
  storedRerankThreshold : option number;
  hasEmbeddingTable : string -> bool;
  fetchModelEmbedding : string -> option embedding;
  getDocuments :
    embedding -> Z -> string -> string -> option (list EmbeddedDocument);
  rerank : string -> list string -> option (list number);
  fs_stat : string -> completion Z;
  fs_readFile : string -> completion string
}.

(** [stored || DEFAULT_RERANK_THRESHOLD] *)
Definition getRerankThreshold (env : Env) : number :=
  match storedRerankThreshold env with
  | Some stored => if number_truthy stored then stored else DEFAULT_RERANK_THRESHOLD
  | None => DEFAULT_RERANK_THRESHOLD
  end.

Definition readFileContent (env : Env) (filePath : option string)
    (maxFileSize : option Z) : completion (option string) :=
  let maxFileSize := default (5 * 1024) maxFileSize in
  match filePath with
  | None => Return None
  | Some path =>
      if negb (truthy path) then Return None
      else
        try_catch
          (size ← fs_stat env path;
           if size >? maxFileSize then Return None
           else if size =? 0 then Return (Some "")
           else
             content ← fs_readFile env path;
             Return (Some content))
          (fun _ => Return None)
  end.

(** One iteration of the [for] loop over [relevantFiles]. *)
Definition read_step (env : Env) (readThreshould : number)
    (readFileChunks : list (option string)) (file : string * number)
    : list (option string) :=
  if gt file.2 readThreshould then
    match readFileContent env (Some file.1) None with
    | Return fileContent => readFileChunks ++ [fileContent]
    | Throw _ => readFileChunks
    end
  else readFileChunks.

Definition readFileChunks (env : Env) (readThreshould : number)
    (relevantFiles : list (string * number)) : list (option string) :=
  foldl (read_step env readThreshould) [] relevantFiles.

(** [documents.filter((_, index) => documentScores[index] > rerankThreshold)
       .map(({ content }) => content)] *)
Definition documentChunks (rerankThreshold : number)
    (documents : list EmbeddedDocument) (documentScores : list number)
    : list (option string) :=
  map doc_content
    (filter_indexed
       (fun _ index =>
          match documentScores !! Z.to_nat index with
          | Some score => gt score rerankThreshold
          | None => false
          end)
       documents).

Definition quote : string := String "034" "".

(** [`file IN ("${relevantFiles.map((file) => file[0]).join('","')}")`] *)
Definition file_query (relevantFiles : list (string * number)) : string :=
  match relevantFiles with
  | [] => ""
  | _ =>
      "file IN (" +:+ quote
      +:+ String.concat (quote +:+ "," +:+ quote) (map fst relevantFiles)
      +:+ quote +:+ ")"
  end.

Definition getRelevantCode (env : Env) (text : option string)
    (relevantFiles : list (string * number)) : string :=
  match db env, text, workspace_name env with
  | true, Some text, Some name =>
      if negb (truthy text) || negb (truthy name) then ""
      else
        let table := name +:+ "-documents" in
        let rerankThreshold := getRerankThreshold env in
        if hasEmbeddingTable env table then
          match fetchModelEmbedding env text with
          | None => ""
          | Some embedding =>
              let query := file_query relevantFiles in
              let documents :=
                default [] (getDocuments env embedding RELEVANT_CODE_COUNT
                              table query) in
              match rerank env text
                      (map (fun item =>
                              match doc_content item with
                              | Some c => if truthy c then trim c else ""
                              | None => ""
                              end) documents) with
              | None => ""
              | Some documentScores =>
                  code_block
                    (readFileChunks env rerankThreshold relevantFiles)
                    (documentChunks rerankThreshold documents documentScores)
              end
          end
        else ""
  | _, _, _ => ""
  end.

(** What the claims call a file that can be read within the cap: the path is
    not empty, [stat] succeeds with a size of at most 5120 bytes, and the
    content is the empty string for a size of zero and what [readFile]
    returns otherwise. *)
Definition readable_within_cap (env : Env) (path content : string) : Prop :=
  path <> "" /\
  exists size,
    fs_stat env path = Return size /\ size <= 5120 /\
    ((size = 0 /\ content = "") \/
     (size <> 0 /\ fs_readFile env path = Return content)).

End WithNumbers.

Arguments mkEnv {number embedding} _ _ _ _ _ _ _ _ _.
Arguments db {number embedding} _.
Arguments workspace_name {number embedding} _.
Arguments storedRerankThreshold {number embedding} _.
Arguments hasEmbeddingTable {number embedding} _ _.
Arguments fetchModelEmbedding {number embedding} _ _.
Arguments getDocuments {number embedding} _ _ _ _ _.
Arguments rerank {number embedding} _ _ _.
Arguments fs_stat {number embedding} _ _.
Arguments fs_readFile {number embedding} _ _.
Arguments getRerankThreshold {number} _ _ {embedding} _.
Arguments readFileContent {number embedding} _ _ _.
Arguments read_step {number} _ {embedding} _ _ _ _.
Arguments readFileChunks {number} _ {embedding} _ _ _.
Arguments documentChunks {number} _ _ _ _.
Arguments file_query {number} _.
Arguments getRelevantCode {number} _ _ _ _ {embedding} _ _ _.
Arguments readable_within_cap {number embedding} _ _ _.

(** *** Facts about the code block *)

Lemma join_with_strings sep l :
  join_with
    (fun x => match x with VUndefined | VNull => "" | _ => toString x end)
    sep (map VString l)
  = String.concat sep l.
Proof.
  induction l as [|x [|y l] IH]; [reflexivity | reflexivity |].
  change (map VString (x :: y :: l))
    with (VString x :: VString y :: map VString l).
  simpl in *. now rewrite IH.
Qed.

Lemma toString_string_array l :
  toString (VArray (map VString l)) = String.concat "," l.
Proof. simpl. apply join_with_strings. Qed.

Section Facts.

Context {number embedding : Type}.
Variable gt : number -> number -> bool.
Variable env : Env number embedding.

Lemma readFileContent_returns path :
  exists r, readFileContent env (Some path) None = Return r.
Proof.
  unfold readFileContent, try_catch. simpl.
  destruct (truthy path); simpl; [| eauto].
  destruct (fs_stat env path) as [size|e]; simpl; [| eauto].
  change (5 * 1024) with 5120.
  destruct (size >? 5120); [eauto |].
  destruct (size =? 0); [eauto |].
  destruct (fs_readFile env path); simpl; eauto.
Qed.

Lemma readFileContent_some path c :
  readFileContent env (Some path) None = Return (Some c)
  <-> readable_within_cap env path c.
Proof.
  unfold readFileContent, try_catch, readable_within_cap. simpl.
  change (5 * 1024) with 5120. split.
  - destruct path as [|a path]; simpl; [discriminate |].
    destruct (fs_stat env (String a path)) as [size|e]; simpl; [| discriminate].
    destruct (Z.gtb_spec size 5120); [discriminate |].
    destruct (Z.eqb_spec size 0) as [->|Hnz].
    + intros [= <-]. split; [discriminate |]. exists 0. intuition lia.
    + destruct (fs_readFile env (String a path)) as [content|e] eqn:Hread;
        simpl; [| discriminate].
      intros [= <-]. split; [discriminate |]. exists size. intuition lia.
  - intros [Hpath (size & Hstat & Hcap & Hcontent)].
    destruct path as [|a path]; [contradiction |]. simpl.
    rewrite Hstat. simpl.
    destruct (Z.gtb_spec size 5120); [lia |].
    destruct Hcontent as [[-> ->] | [Hnz Hread]]; [reflexivity |].
    destruct (Z.eqb_spec size 0); [contradiction |].
    rewrite Hread. reflexivity.
Qed.

(** The entries that one file adds to [readFileChunks]. *)
Lemma read_step_entries thr acc file :
  exists entries,
    read_step gt env thr acc file = acc ++ entries /\
    forall c, Some c ∈ entries <->
              gt file.2 thr = true /\ readable_within_cap env file.1 c.
Proof.
  unfold read_step. destruct (gt file.2 thr).
  - destruct (readFileContent_returns file.1) as [r Hr]. rewrite Hr.
    exists [r]. split; [reflexivity |]. intros c.
    rewrite list_elem_of_singleton, <- readFileContent_some, Hr.
    split; [intros <-; auto | intros [_ [= ->]]; reflexivity].
  - exists []. split; [now rewrite app_nil_r |]. intros c.
    rewrite elem_of_nil. intuition discriminate.
Qed.

Lemma readFileChunks_from thr files acc :
  exists entries,
    foldl (read_step gt env thr) acc files = acc ++ entries /\
    entries = foldl (read_step gt env thr) [] files /\
    forall c, Some c ∈ entries <->
              exists file, file ∈ files /\ gt file.2 thr = true /\
                           readable_within_cap env file.1 c.
Proof.
  revert acc. induction files as [|file files IH] using rev_ind; intros acc.
  - exists []. simpl. split; [now rewrite app_nil_r |]. split; [reflexivity |].
    intros c. rewrite elem_of_nil. split; [tauto |].
    intros (file & Hin & _). now apply elem_of_nil in Hin.
  - rewrite !foldl_snoc.
    destruct (IH acc) as (entries & Hacc & Hnil & Hmem).
    destruct (read_step_entries thr (foldl (read_step gt env thr) acc files) file)
      as (more & Hstep & Hmore).
    destruct (read_step_entries thr (foldl (read_step gt env thr) [] files) file)
      as (more' & Hstep' & _).
    assert (more' = more) as ->.
    { unfold read_step in Hstep, Hstep'. destruct (gt file.2 thr).
      - destruct (readFileContent env (Some file.1) None).
        + apply app_inv_head in Hstep, Hstep'. congruence.
        + rewrite <- (app_nil_r (foldl _ acc files)) in Hstep at 1.
          rewrite <- (app_nil_r (foldl _ [] files)) in Hstep' at 1.
          apply app_inv_head in Hstep, Hstep'. congruence.
      - rewrite <- (app_nil_r (foldl _ acc files)) in Hstep at 1.
        rewrite <- (app_nil_r (foldl _ [] files)) in Hstep' at 1.
        apply app_inv_head in Hstep, Hstep'. congruence. }
    exists (entries ++ more). rewrite Hstep, Hstep', Hacc, <- Hnil.
    split; [now rewrite app_assoc |]. split; [reflexivity |].
    intros c. rewrite elem_of_app, Hmem, Hmore. split.
    + intros [(f & Hin & H) | H].
      * exists f. rewrite elem_of_app. auto.
      * exists file. rewrite elem_of_app, list_elem_of_singleton. auto.
    + intros (f & Hin & H). apply elem_of_app in Hin as [Hin | Hin].
      * left. eauto.
      * apply list_elem_of_singleton in Hin as ->. right. exact H.
Qed.

Lemma readFileChunks_member thr files c :
  Some c ∈ readFileChunks gt env thr files <->
  exists path score,
    (path, score) ∈ files /\ gt score thr = true /\
    readable_within_cap env path c.
Proof.
  unfold readFileChunks.
  destruct (readFileChunks_from thr files []) as (entries & Heq & _ & Hmem).
  rewrite Heq. simpl. rewrite Hmem. split.
  - intros ([path score] & Hin & H). exists path, score. auto.
  - intros (path & score & Hin & H). exists (path, score). auto.
Qed.

Lemma readFileChunks_app thr files1 files2 :
  readFileChunks gt env thr (files1 ++ files2)
  = readFileChunks gt env thr files1 ++ readFileChunks gt env thr files2.
Proof.
  unfold readFileChunks. rewrite foldl_app.
  destruct (readFileChunks_from thr files2 (foldl (read_step gt env thr) [] files1))
    as (entries & -> & -> & _).
  reflexivity.
Qed.

Lemma filter_Boolean_elem (l : list (option string)) c :
  c ∈ filter_Boolean l <-> c <> "" /\ Some c ∈ l.
Proof.
  unfold filter_Boolean. rewrite list_elem_of_omap. split.
  - intros ([s|] & Hin & Hs); [| discriminate].
    destruct s; simpl in Hs; [discriminate |].
    injection Hs as <-. split; [discriminate | assumption].
  - intros [Hne Hin]. exists (Some c). split; [assumption |].
    destruct c; [contradiction | reflexivity].
Qed.

End Facts.

(** When every guard of [getRelevantCode] passes, its result is the code
    block of the file reads and the reranked fragments. *)
Lemma getRelevantCode_assembles {number embedding : Type}
    (gt : number -> number -> bool) (number_truthy : number -> bool)
    (DEFAULT_RERANK_THRESHOLD : number) (RELEVANT_CODE_COUNT : Z)
    (env : Env number embedding) text name emb scores relevantFiles :
  db env = true -> workspace_name env = Some name ->
  truthy text = true -> truthy name = true ->
  hasEmbeddingTable env (name +:+ "-documents") = true ->
  fetchModelEmbedding env text = Some emb ->
  let threshold :=
    getRerankThreshold number_truthy DEFAULT_RERANK_THRESHOLD env in
  let documents :=
    default [] (getDocuments env emb RELEVANT_CODE_COUNT
                  (name +:+ "-documents") (file_query relevantFiles)) in
  rerank env text
    (map (fun item => match doc_content item with
                      | Some c => if truthy c then trim c else ""
                      | None => ""
                      end) documents) = Some scores ->
  getRelevantCode gt number_truthy DEFAULT_RERANK_THRESHOLD RELEVANT_CODE_COUNT
    env (Some text) relevantFiles
  = code_block (readFileChunks gt env threshold relevantFiles)
      (documentChunks gt threshold documents scores).
Proof.
  intros Hdb Hname Htext Htruthy Htable Hemb threshold documents Hscores.
  unfold getRelevantCode.
  rewrite Hdb, Hname, Htext, Htruthy, Htable, Hemb. simpl.
  fold documents. rewrite Hscores. reflexivity.
Qed.

(** *** A workspace for the examples *)

(** [a > b] on rational scores, and the truthiness of a score. *)
Definition Qgtb (a b : Q) : bool := negb (Qle_bool a b).
Definition Q_truthy (a : Q) : bool := negb (Qeq_bool a 0).

(** Four files: [a.ts] of 12 bytes, [big.ts] of 6000 bytes, which [stat]
    reports and [readFile] would return in full, the empty [empty.ts], and
    [locked.ts], which [stat] finds but [readFile] refuses; every other path
    does not exist.  The store returns two fragments, which the reranker
    scores 0.8 and 0.2; no threshold is stored. *)
Definition example_env : Env Q unit :=
  mkEnv true (Some "ws") None (fun _ => true) (fun _ => Some tt)
    (fun _ _ _ _ =>
       Some [mkEmbeddedDocument (Some "f()"); mkEmbeddedDocument (Some "g()")])
    (fun _ _ => Some [(8 # 10)%Q; (2 # 10)%Q])
    (fun path =>
       if String.eqb path "a.ts" then Return 12
       else if String.eqb path "big.ts" then Return 6000
       else if String.eqb path "empty.ts" then Return 0
       else if String.eqb path "locked.ts" then Return 9
       else Throw (SystemError "ENOENT"))
    (fun path =>
       if String.eqb path "a.ts" then Return "export let a"
       else if String.eqb path "big.ts"
            then Return (String.concat "" (replicate (Z.to_nat 6000) "x"))
       else if String.eqb path "empty.ts" then Return ""
       else if String.eqb path "locked.ts" then Throw (SystemError "EACCES")
       else Throw (SystemError "ENOENT")).

Definition example_getRelevantCode (relevantFiles : list (string * Q)) : string :=
  getRelevantCode Qgtb Q_truthy (1 # 2)%Q 5 example_env (Some "fix bug")
    relevantFiles.

(** The same workspace with a reranker that returns no scores. *)
Definition no_scores_env : Env Q unit :=
  mkEnv (db example_env) (workspace_name example_env)
    (storedRerankThreshold example_env) (hasEmbeddingTable example_env)
    (fetchModelEmbedding example_env) (getDocuments example_env)
    (fun _ _ => None)
    (fs_stat example_env) (fs_readFile example_env).

(** A workspace with two files of 12 bytes, [a.ts] and [b.ts], and two
    fragments, which the reranker scores 0.8 and 0.9. *)
Definition two_files_env : Env Q unit :=
  mkEnv true (Some "ws") None (fun _ => true) (fun _ => Some tt)
    (fun _ _ _ _ =>
       Some [mkEmbeddedDocument (Some "f()"); mkEmbeddedDocument (Some "g()")])
    (fun _ _ => Some [(8 # 10)%Q; (9 # 10)%Q])
    (fun path =>
       if String.eqb path "a.ts" then Return 12
       else if String.eqb path "b.ts" then Return 12
       else Throw (SystemError "ENOENT"))
    (fun path =>
       if String.eqb path "a.ts" then Return "export let a"
       else if String.eqb path "b.ts" then Return "export let b"
       else Throw (SystemError "ENOENT")).

(** *** Properties of retrieval *)

(** What the returned expression computes.  The two groups are arrays
    inside the joined array, so each converts with the default separator of
    an array, a comma: the block is the admitted file reads joined by
    commas, a blank line, the admitted fragments joined by commas,
    trimmed. *)
Lemma code_block_is_comma_joined readFileChunks documentChunks :
  code_block readFileChunks documentChunks
  = trim (String.concat "," (filter_Boolean readFileChunks)
          +:+ newline +:+ newline
          +:+ String.concat "," (filter_Boolean documentChunks)).
Proof.
  unfold code_block, Array_join, join_with.
  now rewrite !toString_string_array.
Qed.

(** With at most one admitted entry in each group no separator inside a
    group is written, and the block is the one of the specification. *)
Lemma code_block_single_members readFileChunks documentChunks :
  (length (filter_Boolean readFileChunks) <= 1)%nat ->
  (length (filter_Boolean documentChunks) <= 1)%nat ->
  code_block readFileChunks documentChunks
  = spec_code_block (filter_Boolean readFileChunks)
      (filter_Boolean documentChunks).
Proof.
  intros Hreads Hfragments. rewrite code_block_is_comma_joined.
  unfold spec_code_block.
  destruct (filter_Boolean readFileChunks) as [|r [|r' reads]];
    [| | simpl in Hreads; lia];
    (destruct (filter_Boolean documentChunks) as [|d [|d' fragments]];
       [reflexivity | reflexivity | simpl in Hfragments; lia]).
Qed.

(** Claim C5: the code departs from it.  With two admitted file reads and
    two admitted fragments, [getRelevantCode] separates the members of each
    group by a comma, where the claim has a newline. *)
Lemma code_block_not_newline_joined :
  let relevantFiles := [("a.ts", (9 # 10)%Q); ("b.ts", (8 # 10)%Q)] in
  let block :=
    getRelevantCode Qgtb Q_truthy (1 # 2)%Q 5 two_files_env (Some "fix bug")
      relevantFiles in
  filter_Boolean (readFileChunks Qgtb two_files_env (1 # 2)%Q relevantFiles)
  = ["export let a"; "export let b"] /\
  block
  = code_block [Some "export let a"; Some "export let b"]
      [Some "f()"; Some "g()"] /\
  block
  = "export let a,export let b" +:+ newline +:+ newline +:+ "f(),g()" /\
  spec_code_block ["export let a"; "export let b"] ["f()"; "g()"]
  = "export let a" +:+ newline +:+ "export let b" +:+ newline +:+ newline
    +:+ "f()" +:+ newline +:+ "g()" /\
  block <> spec_code_block ["export let a"; "export let b"] ["f()"; "g()"].
Proof.
  repeat split; try (vm_compute; reflexivity).
  vm_compute. discriminate.
Qed.




(** The scenario of the specification: [a.ts] scores 0.9 and [b.ts] 0.3
    against a threshold of 0.5, so only [a.ts] is read; of the two
    fragments only the one scored 0.8 is kept. *)
Example scenario_threshold :
  example_getRelevantCode [("a.ts", (9 # 10)%Q); ("b.ts", (3 # 10)%Q)]
  = "export let a" +:+ newline +:+ newline +:+ "f()".
Proof. reflexivity. Qed.

(** A file of 6000 bytes, an empty file, a file that cannot be read and a
    file that does not exist add nothing, and the files after them are
    still read. *)
Example scenario_skipped_files :
  example_getRelevantCode
    [("big.ts", (9 # 10)%Q); ("empty.ts", (9 # 10)%Q);
     ("locked.ts", (9 # 10)%Q); ("gone.ts", (9 # 10)%Q); ("a.ts", (9 # 10)%Q)]
  = "export let a" +:+ newline +:+ newline +:+ "f()"
  /\ readFileChunks Qgtb example_env (1 # 2)%Q
       [("big.ts", (9 # 10)%Q); ("empty.ts", (9 # 10)%Q);
        ("locked.ts", (9 # 10)%Q); ("gone.ts", (9 # 10)%Q); ("a.ts", (9 # 10)%Q)]
     = [None; Some ""; None; None; Some "export let a"].
Proof. split; vm_compute; reflexivity. Qed.

End Retrieval.

(** ** Completion session controller ([chat-service.ts]: [ChatService]) *)

Module Session.
Import JS Decoder.

(** *** Data *)

Record Message : Type := mkMessage {
  role : string;
  msg_content : option string
}.

(** Modelled from the spec: the role names [SYSTEM] and [USER] of
    [common/constants], which is not among the sources; the specification
    gives the roles as system, user and assistant. *)
Definition SYSTEM : string := "system".
Definition USER : string := "user".

(** The messages that the service posts to the webview.  The [data] field,
    which carries the language of the active editor, is left out. *)
Inductive ServerMessage : Type :=
| twinnyOnCompletion (completion : string) (type : string)
| twinnyOnEnd (value : option (string * string))
| twinnyOnEndError (errorMessage : string)
| twinnySendLanguage
| twinnySendLoader (message : string)
| twinnySetTab (tab : string)
| twinnyOnLoading
| twinngAddMessage (completion : string).

(** A caller-supplied [onEnd] callback, known by its identity; calling it is
    recorded in the trace. *)
Definition handler : Type := nat.

(** What the service does to the outside, in the order in which it does
    it. *)
Inductive effect : Type :=
| PostMessage (m : ServerMessage)
| SetStatusBar (text : string)
| SetContextGeneratingText (value : bool)
| ListenForStop
| CallOnEnd (h : handler) (completion : string)
| Abort (controller : nat)
| OpenStream (controller : nat)
| ConsoleError.

(** A transport stream, known by the [AbortController] that
    [streamResponse] created for it. *)
Record Transport : Type := mkTransport {
  request : list Message;
  onEnd_of : option handler;
  aborted : bool;
  closed : bool
}.

Definition is_live (t : Transport) : bool := negb (aborted t) && negb (closed t).

(** The mutable fields of [ChatService], the transports opened so far
    (an [AbortController] is the index of its transport) and the trace of
    effects. *)
Record State : Type := mkState {
  _completion : string;
  _controller : option nat;
  _promptTemplate : string;
  transports : list Transport;
  trace : list effect
}.

Definition initial : State := mkState "" None "" [] [].

(** What a method reads from the extension host when it runs. *)
Record Config : Type := mkConfig {
  _view : bool;
  activeProvider : option provider;
  isRagEnabled : bool;
  symmetryConnected : bool
}.

(** The collaborators outside the core: the active editor, the template
    provider, [kebabToSentence] and the retrieval pipeline behind
    [getRagContext] (its trimmed result, [None] for [null]). *)
Record Collaborators : Type := mkCollaborators {
  editorSelection : option string;
  langName : option string;
  readSystemMessageTemplate : string -> option string;
  readTemplate : string -> string -> string -> option string;
  kebabToSentence : string -> string;
  retrieve : option string -> option string
}.

Definition set_completion (v : string) (s : State) : State :=
  mkState v (_controller s) (_promptTemplate s) (transports s) (trace s).

Definition set_controller (v : option nat) (s : State) : State :=
  mkState (_completion s) v (_promptTemplate s) (transports s) (trace s).

Definition set_promptTemplate (v : string) (s : State) : State :=
  mkState (_completion s) (_controller s) v (transports s) (trace s).

Definition set_transports (v : list Transport) (s : State) : State :=
  mkState (_completion s) (_controller s) (_promptTemplate s) v (trace s).

Definition emit (e : effect) (s : State) : State :=
  mkState (_completion s) (_controller s) (_promptTemplate s) (transports s)
    (trace s ++ [e]).

(** The messages posted to the webview, oldest first. *)
Definition posted (s : State) : list ServerMessage :=
  omap (fun e => match e with PostMessage m => Some m | _ => None end) (trace s).

(** The incremental events among them. *)
Definition incremental (s : State) : list string :=
  omap (fun m => match m with twinnyOnCompletion c _ => Some c | _ => None end)
    (posted s).

(** The transports that are open and not aborted. *)
Definition live (s : State) : list Transport := filter (fun t => is_live t = true) (transports s).

(** *** Primitives *)

(** [this._view?.webview.postMessage(m)] *)
Definition postMessage (cfg : Config) (m : ServerMessage) (s : State) : State :=
  if _view cfg then emit (PostMessage m) s else s.

(** [controller.abort()] *)
Definition abort (c : nat) (s : State) : State :=
  emit (Abort c)
    (set_transports
       (alter (fun t => mkTransport (request t) (onEnd_of t) true (closed t))
          c (transports s))
       s).

(** [this._controller?.abort()] *)
Definition abort_controller (s : State) : State :=
  match _controller s with
  | Some c => abort c s
  | None => s
  end.

Definition robot : string := "🤖".

Definition sendEditorLanguage (cfg : Config) (s : State) : State :=
  postMessage cfg twinnySendLanguage s.

Definition focusChatTab (cfg : Config) (s : State) : State :=
  postMessage cfg (twinnySetTab "chat") s.

Definition updateLoadingMessage (cfg : Config) (message : string) (s : State)
    : State :=
  postMessage cfg (twinnySendLoader message) s.

(** *** Stream callbacks *)

Definition onStreamData (cfg : Config) (streamResponse : option StreamResponse)
    (onEnd : option handler) (s : State) : State :=
  match activeProvider cfg with
  | None => s
  | Some p =>
      match getChatDataFromProvider p streamResponse with
      | Return data =>
          let s := set_completion (concat_opt (_completion s) data) s in
          match onEnd with
          | Some _ => s
          | None =>
              postMessage cfg
                (twinnyOnCompletion (trimStart (_completion s)) (_promptTemplate s))
                s
          end
      | Throw _ => emit ConsoleError s
      end
  end.

Definition onStreamEnd (cfg : Config) (onEnd : option handler) (s : State)
    : State :=
  let s := emit (SetStatusBar robot) s in
  let s := emit (SetContextGeneratingText false) s in
  match onEnd with
  | Some h =>
      let s := emit (CallOnEnd h (_completion s)) s in
      postMessage cfg (twinnyOnEnd None) s
  | None =>
      postMessage cfg
        (twinnyOnEnd (Some (trimStart (_completion s), _promptTemplate s))) s
  end.

Definition onStreamError (cfg : Config) (message : string) (s : State) : State :=
  postMessage cfg (twinnyOnEndError message) s.

Definition onStreamStart (cfg : Config) (controller : nat) (s : State) : State :=
  let s := set_controller (Some controller) s in
  let s := emit (SetContextGeneratingText true) s in
  if _view cfg then emit ListenForStop s else s.

(** The listener that [onStreamStart] registers, run when the webview sends
    [twinnyStopGeneration]. *)
Definition onStopGeneration (s : State) : State := abort_controller s.

Definition destroyStream (cfg : Config) (s : State) : State :=
  let s := abort_controller s in
  let s := emit (SetStatusBar robot) s in
  let s := emit (SetContextGeneratingText true) s in
  postMessage cfg
    (twinnyOnEnd (Some (trimStart (_completion s), _promptTemplate s))) s.

(** *** The transport *)

(** Modelled from the spec: [streamResponse] of [stream.ts], which is not
    among the sources.  It opens the transport stream for a request, with a
    cancellation handle of its own, and reports the handle through
    [onStart]. *)
Definition streamResponse (cfg : Config) (req : list Message)
    (onEnd : option handler) (s : State) : State :=
  let controller := length (transports s) in
  let s := set_transports (transports s ++ [mkTransport req onEnd false false]) s in
  let s := emit (OpenStream controller) s in
  onStreamStart cfg controller s.

(** Modelled from the spec: a chunk that arrives on a transport is handed to
    [onData] as long as the transport is live. *)
Definition deliver (cfg : Config) (c : nat) (chunk : option StreamResponse)
    (s : State) : State :=
  match transports s !! c with
  | Some t => if is_live t then onStreamData cfg chunk (onEnd_of t) s else s
  | None => s
  end.

(** *** Starting a session *)

Definition getRagContext (cfg : Config) (ext : Collaborators)
    (text : option string) (s : State) : State * option string :=
  if negb (isRagEnabled cfg) || symmetryConnected cfg then (s, None)
  else
    let s := updateLoadingMessage cfg "Exploring knowledge base" s in
    (s, retrieve ext text).

(** The request of [buildStreamRequest], reduced to its messages; there is
    none without an active provider. *)
Definition buildStreamRequest (cfg : Config) (messages : list Message)
    : option (list Message) :=
  match activeProvider cfg with
  | None => None
  | Some _ => Some messages
  end.

Definition blank_line : string := String "010" (String "010" "").

(** With no message at all, [lastMessage.content] throws; what the call
    did before that is not kept. *)
Definition streamChatCompletion (cfg : Config) (ext : Collaborators)
    (messages : list Message) (s : State) : completion State :=
  let s := set_completion "" s in
  let s := sendEditorLanguage cfg s in
  let userSelection := editorSelection ext in
  match last messages with
  | None => Throw TypeError
  | Some lastMessage =>
      let text := msg_content lastMessage in
      let systemMessage :=
        mkMessage SYSTEM (readSystemMessageTemplate ext (_promptTemplate s)) in
      let additionalContext :=
        if truthy_opt userSelection
        then "Selected Code:" +:+ String "010" ""
             +:+ toString_opt userSelection +:+ blank_line
        else "" in
      let '(s, ragContext) := getRagContext cfg ext text s in
      let additionalContext :=
        if truthy_opt ragContext
        then additionalContext +:+ "Additional Context:" +:+ String "010" ""
             +:+ toString_opt ragContext +:+ blank_line
        else additionalContext in
      let updatedMessages := systemMessage :: removelast messages in
      let updatedMessages :=
        if truthy additionalContext
        then updatedMessages
             ++ [mkMessage USER
                   (Some (toString_opt text +:+ blank_line
                          +:+ trim additionalContext))]
        else updatedMessages ++ [lastMessage] in
      let s := updateLoadingMessage cfg "Thinking" s in
      match buildStreamRequest cfg updatedMessages with
      | None => Return s
      | Some req => Return (streamResponse cfg req None s)
      end
  end.

Definition getTemplateMessages (cfg : Config) (ext : Collaborators)
    (template : string) (context : option string) (skipMessage : bool)
    (s : State) : State * list Message :=
  let s := emit (SetStatusBar "$(loading~spin)") s in
  let s := set_completion "" s in
  let s := set_promptTemplate template s in
  let s := sendEditorLanguage cfg s in
  let selection :=
    if truthy_opt (editorSelection ext) then toString_opt (editorSelection ext)
    else if truthy_opt context then toString_opt context
    else "" in
  let language :=
    if truthy_opt (langName ext) then toString_opt (langName ext) else "unknown" in
  let prompt :=
    match readTemplate ext template selection language with
    | Some p => p
    | None => ""
    end in
  let s :=
    if skipMessage then s
    else
      let s := focusChatTab cfg s in
      let s := postMessage cfg twinnyOnLoading s in
      postMessage cfg
        (twinngAddMessage
           (kebabToSentence ext template +:+ blank_line
            +:+ "```" +:+ String "010" "" +:+ selection)) s in
  let systemMessage :=
    mkMessage SYSTEM (readSystemMessageTemplate ext (_promptTemplate s)) in
  let '(s, ragContext) :=
    if String.eqb template "explain"
    then getRagContext cfg ext (Some selection) s
    else (s, None) in
  let userContent :=
    if truthy_opt ragContext
    then prompt +:+ blank_line +:+ "Additional Context:" +:+ String "010" ""
         +:+ toString_opt ragContext
    else prompt in
  (s, [systemMessage; mkMessage USER (Some userContent)]).

Definition streamTemplateCompletion (cfg : Config) (ext : Collaborators)
    (promptTemplate : string) (context : option string)
    (onEnd : option handler) (skipMessage : bool) (s : State) : State :=
  let '(s, messages) :=
    getTemplateMessages cfg ext promptTemplate context skipMessage s in
  match buildStreamRequest cfg messages with
  | None => s
  | Some req => streamResponse cfg req onEnd s
  end.

(** Collaborators that return nothing, and a configuration with a webview
    and an active Ollama provider, for the examples. *)
Definition no_collaborators : Collaborators :=
  mkCollaborators None None (fun _ => None) (fun _ _ _ => None) (fun t => t)
    (fun _ => None).

Definition ollama_config : Config := mkConfig true (Some Ollama) false false.

(** *** Steps that call no [abort()] *)

Definition is_abort (e : effect) : bool :=
  match e with Abort _ => true | _ => false end.

(** [s'] is reached from [s] by a step that keeps every transport of [s] as
    it is and calls [abort()] on nothing. *)
Definition without_abort (s s' : State) : Prop :=
  transports s `prefix_of` transports s' /\
  exists es, trace s' = trace s ++ es /\ Forall (fun e => is_abort e = false) es.

(** A session opened next to whatever [s] has: nothing is aborted, every
    transport of [s] is unchanged, and, when a provider is active, one more
    transport is live and its handle is the one the service now tracks. *)
Definition opens_beside (cfg : Config) (onEnd : option handler)
    (s s' : State) : Prop :=
  without_abort s s' /\
  (forall c t, transports s !! c = Some t -> transports s' !! c = Some t) /\
  (is_Some (activeProvider cfg) ->
   _controller s' = Some (length (transports s)) /\
   exists req,
     transports s' = transports s ++ [mkTransport req onEnd false false] /\
     live s' = live s ++ [mkTransport req onEnd false false]).

Lemma without_abort_refl s : without_abort s s.
Proof.
  split; [reflexivity |]. exists []. split; [now rewrite app_nil_r | constructor].
Qed.

Lemma without_abort_trans s1 s2 s3 :
  without_abort s1 s2 -> without_abort s2 s3 -> without_abort s1 s3.
Proof.
  intros [Hp1 (es1 & Ht1 & Hf1)] [Hp2 (es2 & Ht2 & Hf2)]. split.
  - etransitivity; eassumption.
  - exists (es1 ++ es2). rewrite Ht2, Ht1, app_assoc. split; [reflexivity |].
    apply Forall_app; auto.
Qed.

Lemma without_abort_emit e s s1 :
  is_abort e = false -> without_abort s s1 -> without_abort s (emit e s1).
Proof.
  intros He H. apply (without_abort_trans _ s1); [exact H |].
  split; [reflexivity |]. exists [e]. split; [reflexivity | repeat constructor; exact He].
Qed.

Lemma without_abort_set_completion v s s1 :
  without_abort s s1 -> without_abort s (set_completion v s1).
Proof. intros H. exact H. Qed.

Lemma without_abort_set_controller v s s1 :
  without_abort s s1 -> without_abort s (set_controller v s1).
Proof. intros H. exact H. Qed.

Lemma without_abort_set_promptTemplate v s s1 :
  without_abort s s1 -> without_abort s (set_promptTemplate v s1).
Proof. intros H. exact H. Qed.

Lemma without_abort_postMessage cfg m s s1 :
  without_abort s s1 -> without_abort s (postMessage cfg m s1).
Proof.
  intros H. unfold postMessage. destruct (_view cfg); [| exact H].
  apply without_abort_emit; [reflexivity | exact H].
Qed.

Create HintDb quiet.

#[local] Hint Resolve without_abort_refl without_abort_emit
  without_abort_set_completion without_abort_set_controller
  without_abort_set_promptTemplate without_abort_postMessage : quiet.

Ltac quiet := unfold sendEditorLanguage, focusChatTab, updateLoadingMessage;
  auto 12 with quiet.

Lemma without_abort_onStreamStart cfg c s s1 :
  without_abort s s1 -> without_abort s (onStreamStart cfg c s1).
Proof. intros H. unfold onStreamStart. destruct (_view cfg); quiet. Qed.

Lemma without_abort_streamResponse cfg req onEnd s s1 :
  without_abort s s1 -> without_abort s (streamResponse cfg req onEnd s1).
Proof.
  intros H. unfold streamResponse.
  apply without_abort_onStreamStart, without_abort_emit; [reflexivity |].
  apply (without_abort_trans _ s1); [exact H |].
  split; [apply prefix_app_r; reflexivity |].
  exists []. split; [simpl; now rewrite app_nil_r | constructor].
Qed.

Lemma without_abort_getRagContext cfg ext text s s1 :
  without_abort s s1 -> without_abort s (getRagContext cfg ext text s1).1.
Proof.
  intros H. unfold getRagContext.
  destruct (negb (isRagEnabled cfg) || symmetryConnected cfg); simpl; quiet.
Qed.

#[local] Hint Resolve without_abort_onStreamStart without_abort_streamResponse
  without_abort_getRagContext : quiet.

(** *** What the steps leave alone *)

Lemma transports_postMessage cfg m s :
  transports (postMessage cfg m s) = transports s.
Proof. unfold postMessage. now destruct (_view cfg). Qed.

Lemma controller_postMessage cfg m s :
  _controller (postMessage cfg m s) = _controller s.
Proof. unfold postMessage. now destruct (_view cfg). Qed.

Lemma completion_postMessage cfg m s :
  _completion (postMessage cfg m s) = _completion s.
Proof. unfold postMessage. now destruct (_view cfg). Qed.

Lemma promptTemplate_postMessage cfg m s :
  _promptTemplate (postMessage cfg m s) = _promptTemplate s.
Proof. unfold postMessage. now destruct (_view cfg). Qed.

Lemma transports_getRagContext cfg ext text s :
  transports (getRagContext cfg ext text s).1 = transports s.
Proof.
  unfold getRagContext, updateLoadingMessage.
  destruct (negb (isRagEnabled cfg) || symmetryConnected cfg); simpl;
    [reflexivity | apply transports_postMessage].
Qed.

Lemma transports_getTemplateMessages cfg ext template context skipMessage s :
  transports (getTemplateMessages cfg ext template context skipMessage s).1
  = transports s.
Proof.
  unfold getTemplateMessages, sendEditorLanguage, focusChatTab.
  destruct (String.eqb template "explain").
  - destruct (getRagContext _ _ _ _) as [s1 rag] eqn:Hrag. simpl.
    change s1 with (s1, rag).1. rewrite <- Hrag, transports_getRagContext.
    destruct skipMessage; rewrite ?transports_postMessage; reflexivity.
  - simpl. destruct skipMessage; rewrite ?transports_postMessage; reflexivity.
Qed.

Lemma posted_emit e s :
  posted (emit e s)
  = posted s ++ match e with PostMessage m => [m] | _ => [] end.
Proof.
  unfold posted, emit. simpl. rewrite omap_app. destruct e; reflexivity.
Qed.

Lemma posted_postMessage cfg m s :
  posted (postMessage cfg m s) = posted s ++ (if _view cfg then [m] else []).
Proof.
  unfold postMessage. destruct (_view cfg);
    [apply posted_emit | now rewrite app_nil_r].
Qed.

Lemma streamResponse_opens cfg req onEnd s :
  _controller (streamResponse cfg req onEnd s) = Some (length (transports s)) /\
  transports (streamResponse cfg req onEnd s)
  = transports s ++ [mkTransport req onEnd false false].
Proof. unfold streamResponse, onStreamStart. destruct (_view cfg); split; reflexivity. Qed.

Lemma live_app_new s s' t :
  transports s' = transports s ++ [t] -> is_live t = true ->
  live s' = live s ++ [t].
Proof.
  intros Ht Hlive. unfold live. rewrite Ht, filter_app. f_equal.
  rewrite filter_cons_True by exact Hlive. reflexivity.
Qed.

Lemma no_live_iff (ts : list Transport) :
  filter (fun t => is_live t = true) ts = []
  <-> Forall (fun t => is_live t = false) ts.
Proof.
  induction ts as [|t ts IH]; [split; [constructor | reflexivity] |].
  rewrite filter_cons. destruct (decide (is_live t = true)) as [Hl|Hl].
  - split; [discriminate |]. intros H. apply Forall_inv in H. congruence.
  - rewrite IH. split.
    + intros H. constructor; [now destruct (is_live t) | exact H].
    + intros H. now apply Forall_inv_tail in H.
Qed.

Lemma opens_beside_of cfg onEnd s s0 :
  without_abort s s0 -> transports s0 = transports s ->
  forall req,
    (activeProvider cfg = None -> opens_beside cfg onEnd s s0) /\
    opens_beside cfg onEnd s (streamResponse cfg req onEnd s0).
Proof.
  intros Hq Ht req. split.
  - intros Hnone. split; [exact Hq |]. split; [now rewrite Ht |].
    rewrite Hnone. intros [? [=]].
  - destruct (streamResponse_opens cfg req onEnd s0) as [Hc Hts].
    rewrite Ht in Hc, Hts. split; [auto with quiet |]. split.
    + intros c t Hlookup. rewrite Hts. now apply lookup_app_l_Some.
    + intros _. split; [exact Hc |]. exists req. split; [exact Hts |].
      now apply live_app_new.
Qed.

(** The accumulated texts after each of the deltas [ds], starting from
    [text]. *)
Fixpoint growing_prefixes (text : string) (ds : list (option string))
    : list string :=
  match ds with
  | [] => []
  | d :: ds => concat_opt text d :: growing_prefixes (concat_opt text d) ds
  end.

Lemma onStreamData_decoded cfg p chunk d s :
  activeProvider cfg = Some p -> _view cfg = true ->
  getChatDataFromProvider p chunk = Return d ->
  onStreamData cfg chunk None s
  = emit (PostMessage
            (twinnyOnCompletion (trimStart (concat_opt (_completion s) d))
               (_promptTemplate s)))
      (set_completion (concat_opt (_completion s) d) s).
Proof.
  intros Hp Hview Hd. unfold onStreamData, postMessage.
  now rewrite Hp, Hd, Hview.
Qed.

(** A run of chunks that decode to the deltas [ds], with no [onEnd]
    handler: one incremental event per chunk, each the trimmed text
    accumulated so far. *)
Lemma chunks_post_growing_prefixes cfg p chunks ds :
  activeProvider cfg = Some p -> _view cfg = true ->
  Forall2 (fun chunk d => getChatDataFromProvider p chunk = Return d) chunks ds ->
  forall s,
    incremental (foldl (fun s chunk => onStreamData cfg chunk None s) s chunks)
    = incremental s ++ map trimStart (growing_prefixes (_completion s) ds).
Proof.
  intros Hp Hview Hall.
  induction Hall as [|chunk d chunks ds Hd _ IH]; intros s; simpl.
  - now rewrite app_nil_r.
  - rewrite IH, (onStreamData_decoded cfg p chunk d s Hp Hview Hd).
    unfold incremental at 1. rewrite posted_emit, omap_app. simpl.
    unfold incremental, posted. simpl. now rewrite <- app_assoc.
Qed.

(** *** Properties of the session controller *)

(** Claim C1, as the code has it.  Neither [streamChatCompletion] nor
    [streamTemplateCompletion] calls [abort()]: every transport that was
    open stays as it was, a stream that was live stays live next to the new
    one, and [onStreamStart] replaces the tracked handle by the handle of the
    new stream. *)
Theorem new_session_opens_beside_prior cfg ext s :
  (forall messages s',
      streamChatCompletion cfg ext messages s = Return s' ->
      opens_beside cfg None s s')
  /\ (forall template context onEnd skipMessage,
        opens_beside cfg onEnd s
          (streamTemplateCompletion cfg ext template context onEnd skipMessage s)).
Proof.
  split.
  - intros messages s'. unfold streamChatCompletion.
    destruct (last messages) as [lastMessage|]; [| discriminate].
    destruct (getRagContext _ _ _ _) as [s1 rag] eqn:Hrag.
    set (req := if truthy _ then _ else _).
    assert (without_abort s (updateLoadingMessage cfg "Thinking" s1)) as Hq.
    { change s1 with (s1, rag).1. rewrite <- Hrag. quiet. }
    assert (transports (updateLoadingMessage cfg "Thinking" s1) = transports s) as Ht.
    { unfold updateLoadingMessage. rewrite transports_postMessage.
      change s1 with (s1, rag).1.
      rewrite <- Hrag, transports_getRagContext.
      unfold sendEditorLanguage. now rewrite transports_postMessage. }
    destruct (opens_beside_of cfg None s _ Hq Ht req) as [Hnone Hsome].
    unfold buildStreamRequest.
    destruct (activeProvider cfg) eqn:Hp; intros [= <-]; auto.
  - intros template context onEnd skipMessage. unfold streamTemplateCompletion.
    pose proof (transports_getTemplateMessages cfg ext template context
                  skipMessage s) as Ht.
    assert (without_abort s
              (getTemplateMessages cfg ext template context skipMessage s).1)
      as Hq.
    { unfold getTemplateMessages.
      destruct (String.eqb template "explain").
      - destruct (getRagContext _ _ _ _) as [s1 rag] eqn:Hrag. simpl.
        change s1 with (s1, rag).1. rewrite <- Hrag.
        destruct skipMessage; quiet.
      - simpl. destruct skipMessage; quiet. }
    destruct (getTemplateMessages _ _ _ _ _ _) as [s0 messages]. simpl in Ht, Hq.
    destruct (opens_beside_of cfg onEnd s s0 Hq Ht messages) as [Hnone Hsome].
    unfold buildStreamRequest.
    destruct (activeProvider cfg) eqn:Hp; auto.
Qed.

Lemma new_session_opens_beside_prior_witness :
  opens_beside ollama_config None initial
    (streamResponse ollama_config
       [mkMessage SYSTEM None; mkMessage USER (Some "hi")] None
       (updateLoadingMessage ollama_config "Thinking"
          (sendEditorLanguage ollama_config initial))).
Proof.
  destruct (new_session_opens_beside_prior ollama_config no_collaborators initial)
    as [H _].
  apply (H [mkMessage USER (Some "hi")]). reflexivity.
Defined.

(** Claim C1, as the specification words it, fails: a second
    [streamChatCompletion] while the first stream is live aborts nothing;
    both streams are then live, and [destroyStream] reaches only the second
    one. *)
Lemma second_session_leaves_first_stream_live :
  let messages := [mkMessage USER (Some "hi")] in
  exists s1 s2,
    streamChatCompletion ollama_config no_collaborators messages initial
    = Return s1 /\
    streamChatCompletion ollama_config no_collaborators messages s1
    = Return s2 /\
    length (live s1) = 1%nat /\
    length (live s2) = 2%nat /\
    Forall (fun e => is_abort e = false) (trace s2) /\
    aborted <$> transports s2 !! 0%nat = Some false /\
    _controller s2 = Some 1%nat /\
    aborted <$> transports (destroyStream ollama_config s2) = [false; true].
Proof.
  eexists _, _. split; [reflexivity |]. split; [reflexivity |].
  repeat split; try reflexivity.
  vm_compute. repeat constructor.
Qed.

(** After the second start a chunk of the first stream is still appended to
    the text of the second session. *)
Example stale_stream_writes_into_new_session :
  let messages := [mkMessage USER (Some "hi")] in
  forall s1 s2,
    streamChatCompletion ollama_config no_collaborators messages initial
    = Return s1 ->
    streamChatCompletion ollama_config no_collaborators messages s1
    = Return s2 ->
    _completion (deliver ollama_config 0 (Some (chat_payload "old")) s2) = "old".
Proof. intros messages s1 s2 [= <-] [= <-]. reflexivity. Qed.

(** Claim C6, as the code has it.  With an [onEnd] handler a chunk posts
    nothing.  Without one, with an active provider and a webview, a chunk
    that decodes posts exactly one incremental event, and the event carries
    the text accumulated so far, delta included, with its leading white
    space removed.  A chunk whose decoding throws posts nothing and leaves
    the accumulated text as it was. *)
Theorem onStreamData_incremental_events cfg chunk s :
  (forall h, posted (onStreamData cfg chunk (Some h) s) = posted s)
  /\ (forall p data,
        activeProvider cfg = Some p -> _view cfg = true ->
        getChatDataFromProvider p chunk = Return data ->
        _completion (onStreamData cfg chunk None s)
        = concat_opt (_completion s) data /\
        trace (onStreamData cfg chunk None s)
        = trace s
          ++ [PostMessage
                (twinnyOnCompletion
                   (trimStart (concat_opt (_completion s) data))
                   (_promptTemplate s))])
  /\ (forall p e onEnd,
        activeProvider cfg = Some p ->
        getChatDataFromProvider p chunk = Throw e ->
        _completion (onStreamData cfg chunk onEnd s) = _completion s /\
        posted (onStreamData cfg chunk onEnd s) = posted s).
Proof.
  split; [| split].
  - intros h. unfold onStreamData.
    destruct (activeProvider cfg) as [p|]; [| reflexivity].
    destruct (getChatDataFromProvider p chunk); [reflexivity |].
    rewrite posted_emit. now rewrite app_nil_r.
  - intros p data Hp Hview Hdata. unfold onStreamData, postMessage.
    rewrite Hp, Hdata, Hview. split; reflexivity.
  - intros p e onEnd Hp Hthrow. unfold onStreamData.
    rewrite Hp, Hthrow. split; [reflexivity |].
    rewrite posted_emit. now rewrite app_nil_r.
Qed.

Lemma onStreamData_incremental_events_witness :
  _completion
    (onStreamData ollama_config (Some (chat_payload "lo")) None
       (set_completion "Hel" initial)) = "Hello" /\
  trace
    (onStreamData ollama_config (Some (chat_payload "lo")) None
       (set_completion "Hel" initial))
  = [PostMessage (twinnyOnCompletion "Hello" "")].
Proof.
  destruct (onStreamData_incremental_events ollama_config
              (Some (chat_payload "lo")) (set_completion "Hel" initial))
    as (_ & H & _).
  apply (H Ollama (Some "lo")); reflexivity.
Defined.

(** Claim C6, as the specification words it, fails twice.  A first chunk
    [" Hello"] makes the accumulated text [" Hello"], but the event carries
    ["Hello"]; and a chunk with an empty [choices] array, whose decoding
    throws for Ollama, posts no event at all. *)
Lemma incremental_event_trimmed_or_missing :
  let s1 := onStreamData ollama_config (Some (chat_payload " Hello")) None initial in
  let s2 :=
    onStreamData ollama_config (Some (mkStreamResponse None None (Some [])))
      None s1 in
  _completion s1 = " Hello" /\
  incremental s1 = ["Hello"] /\
  incremental s1 <> [_completion s1] /\
  getChatDataFromProvider Ollama (Some (mkStreamResponse None None (Some [])))
  = Throw TypeError /\
  incremental s2 = incremental s1.
Proof. repeat split; try reflexivity. discriminate. Qed.

(** Claim C8, as the code has it.  [destroyStream] is a total function: it
    cannot throw.  With no live transport it leaves none live and keeps the
    accumulated text, the template and the tracked handle, and it posts one
    terminal [twinnyOnEnd] event with the trimmed accumulated text; with no
    tracked handle it also calls [abort()] on nothing and leaves every
    transport record as it was. *)
Theorem destroyStream_when_idle cfg s :
  live s = [] ->
  live (destroyStream cfg s) = [] /\
  _completion (destroyStream cfg s) = _completion s /\
  _promptTemplate (destroyStream cfg s) = _promptTemplate s /\
  _controller (destroyStream cfg s) = _controller s /\
  posted (destroyStream cfg s)
  = posted s
    ++ (if _view cfg
        then [twinnyOnEnd (Some (trimStart (_completion s), _promptTemplate s))]
        else []) /\
  (_controller s = None ->
   transports (destroyStream cfg s) = transports s /\
   without_abort s (destroyStream cfg s)).
Proof.
  intros Hidle. unfold destroyStream.
  rewrite completion_postMessage, promptTemplate_postMessage,
    controller_postMessage, posted_postMessage, !posted_emit, !app_nil_r.
  unfold live. rewrite transports_postMessage. simpl.
  unfold abort_controller. destruct (_controller s) as [c|] eqn:Hc.
  - unfold abort. simpl. rewrite posted_emit, app_nil_r.
    split; [| do 2 (split; [reflexivity |]); split; [exact Hc |];
              split; [reflexivity | intros H; congruence]].
    apply no_live_iff. apply no_live_iff in Hidle.
    apply Forall_alter; [exact Hidle |].
    intros t _ _. unfold is_live. simpl. reflexivity.
  - split; [exact Hidle |]. do 2 (split; [reflexivity |]).
    split; [exact Hc |]. split; [reflexivity |].
    intros _. split; [reflexivity |]. quiet.
Qed.

Lemma destroyStream_when_idle_witness :
  posted (destroyStream ollama_config initial) = [twinnyOnEnd (Some ("", ""))].
Proof.
  destruct (destroyStream_when_idle ollama_config initial)
    as (_ & _ & _ & _ & H & _); [reflexivity |].
  exact H.
Defined.

(** Claim C8, as the specification words it, fails: on a service that never
    started a session [destroyStream] sets the status bar and the
    generating-text context and posts a terminal event. *)
Lemma destroyStream_idle_has_effects :
  live initial = [] /\
  _controller initial = None /\
  trace (destroyStream ollama_config initial)
  = [SetStatusBar robot; SetContextGeneratingText true;
     PostMessage (twinnyOnEnd (Some ("", "")))] /\
  destroyStream ollama_config initial <> initial.
Proof. repeat split; try reflexivity. discriminate. Qed.

End Session.

(** ** More about the chunker: the windows of [simpleChunk] and the
       fragments of [combineChunks] *)

Module ChunkerFacts.
Import JS Chunker.

(** *** Substrings *)

Lemma substring_nil n m : String.substring n m "" = "".
Proof. destruct n, m; reflexivity. Qed.

Lemma append_cons c s t : String c s +:+ t = String c (s +:+ t).
Proof. reflexivity. Qed.

Lemma append_empty_r s : s +:+ "" = s.
Proof. induction s as [|c s IH]; [reflexivity |]. now rewrite append_cons, IH. Qed.

Lemma append_assoc s t u : (s +:+ t) +:+ u = s +:+ t +:+ u.
Proof. induction s as [|c s IH]; [reflexivity |]. now rewrite !append_cons, IH. Qed.

Lemma substring_glue s a b :
  String.substring 0 a s +:+ String.substring a b s
  = String.substring 0 (a + b) s.
Proof.
  revert s. induction a as [|a IH]; intros s.
  - destruct s; destruct b; reflexivity.
  - destruct s as [|c s]; [reflexivity |]. simpl.
    rewrite append_cons. f_equal. apply IH.
Qed.

Lemma len_slice_between s a b :
  0 <= a <= b -> b <= len s -> len (slice s a (Some b)) = b - a.
Proof.
  intros Ha Hb. unfold slice.
  rewrite (clamp_index_inside (len s) a), (clamp_index_inside (len s) b) by lia.
  unfold len in *. rewrite length_substring. lia.
Qed.

Lemma slice_between s a b :
  0 <= a <= b -> b <= len s ->
  slice s a (Some b) = String.substring (Z.to_nat a) (Z.to_nat (b - a)) s.
Proof.
  intros Ha Hb. unfold slice.
  rewrite (clamp_index_inside (len s) a), (clamp_index_inside (len s) b) by lia.
  now rewrite Z.max_l by lia.
Qed.

Lemma concat_empty_snoc l x :
  String.concat "" (l ++ [x]) = String.concat "" l +:+ x.
Proof.
  induction l as [|y [|z l] IH]; [reflexivity | reflexivity |].
  change ((y :: z :: l) ++ [x]) with (y :: (z :: l) ++ [x]).
  change (String.concat "" (y :: (z :: l) ++ [x]))
    with (y +:+ "" +:+ String.concat "" ((z :: l) ++ [x])).
  change (String.concat "" (y :: z :: l))
    with (y +:+ "" +:+ String.concat "" (z :: l)).
  rewrite IH. now rewrite !append_assoc.
Qed.

(** *** The indexed filter *)

Lemma filter_from_snoc {A} (p : A -> Z -> bool) i (l : list A) x :
  filter_from p i (l ++ [x])
  = filter_from p i l ++ (if p x (i + Z.of_nat (length l)) then [x] else []).
Proof.
  revert i. induction l as [|y l IH]; intros i; simpl.
  - now rewrite Z.add_0_r.
  - rewrite IH. replace (i + 1 + Z.of_nat (length l))
      with (i + Z.pos (Pos.of_succ_nat (length l))) by lia.
    destruct (p y i); reflexivity.
Qed.

Lemma filter_from_Forall {A} (P : A -> Prop) (p : A -> Z -> bool) i (l : list A) :
  Forall P l -> Forall P (filter_from p i l).
Proof.
  intros H. revert i. induction H as [|x l Hx _ IH]; intros i; simpl.
  - constructor.
  - destruct (p x i); [constructor |]; auto.
Qed.

Lemma filter_from_holds {A} (p : A -> Z -> bool) (q : A -> bool) i (l : list A) :
  (forall x j, p x j = true -> i <= j < i + Z.of_nat (length l) -> q x = true) ->
  Forall (fun x => q x = true) (filter_from p i l).
Proof.
  revert i. induction l as [|x l IH]; intros i H; simpl; [constructor |].
  assert (Forall (fun x => q x = true) (filter_from p (i + 1) l)) as Hrest.
  { apply IH. intros y j Hp Hj. apply (H y j Hp). simpl length. lia. }
  destruct (p x i) eqn:Hp; [constructor |]; auto.
  apply (H x i Hp). simpl length. lia.
Qed.

Lemma filter_from_all {A} (p : A -> Z -> bool) i (l : list A) :
  (forall x j, x ∈ l -> p x j = true) -> filter_from p i l = l.
Proof.
  revert i. induction l as [|x l IH]; intros i H; simpl; [reflexivity |].
  rewrite (H x i) by constructor. f_equal. apply IH.
  intros y j Hy. apply H. now constructor.
Qed.

(** [keep_chunks] keeps the last chunk and, before it, the chunks of at
    least [minS] characters. *)
Lemma keep_chunks_snoc minS chunks last :
  exists kept,
    keep_chunks minS (chunks ++ [last]) = kept ++ [last] /\
    Forall (fun f => minS <= len f) kept /\
    (Forall (fun f => minS <= len f) chunks -> kept = chunks).
Proof.
  unfold keep_chunks, filter_indexed. rewrite filter_from_snoc.
  rewrite List.length_app. simpl length.
  replace (0 + Z.of_nat (length chunks) =? Z.of_nat (length chunks + 1) - 1)
    with true by (symmetry; apply Z.eqb_eq; lia).
  rewrite orb_true_r.
  set (p := fun (chunk : string) (index : Z) =>
              (len chunk >=? minS) || (index =? Z.of_nat (length chunks + 1) - 1)).
  exists (filter_from p 0 chunks). split; [reflexivity |]. split.
  - assert (Forall (fun f => (minS <=? len f) = true) (filter_from p 0 chunks)) as H.
    { apply filter_from_holds. intros x j Hp Hj. subst p. simpl in Hp.
      apply orb_true_iff in Hp as [Hp | Hp].
      - apply Z.leb_le. apply Z.geb_le in Hp. exact Hp.
      - apply Z.eqb_eq in Hp. lia. }
    eapply Forall_impl; [exact H |]. intros f Hf. now apply Z.leb_le.
  - intros Hall. apply filter_from_all. intros x j Hx. subst p. simpl.
    rewrite Forall_forall in Hall. specialize (Hall x Hx).
    apply orb_true_iff. left. apply Z.geb_le. exact Hall.
Qed.

Lemma keep_chunks_all minS chunks :
  Forall (fun f => minS <= len f) chunks -> keep_chunks minS chunks = chunks.
Proof.
  intros Hall. unfold keep_chunks, filter_indexed. apply filter_from_all.
  intros x j Hx. rewrite Forall_forall in Hall. specialize (Hall x Hx).
  apply orb_true_iff. left. apply Z.geb_le. exact Hall.
Qed.

(** *** The loop of [simpleChunk] *)

(** The body of the loop, with the [try]/[catch] around [push] resolved. *)
Lemma simpleChunk_body_eq content maxS ov start chunks :
  simpleChunk_body content maxS ov start chunks
  = if Z.of_nat (length chunks) >=? MAX_ARRAY_LENGTH then Return (Break chunks)
    else
      let end_ := window_end content maxS start in
      let chunks' := chunks ++ [slice content start (Some end_)] in
      if end_ =? len content then Return (Break chunks')
      else Return (Continue (next_start start end_ ov) chunks').
Proof.
  unfold simpleChunk_body, push.
  destruct (Z.of_nat (length chunks) >=? MAX_ARRAY_LENGTH); [| reflexivity].
  now rewrite includes_invalid_array_length.
Qed.

Section LoopInvariant.

Variable content : string.
Variables maxS ov : Z.

(** [I] holds at the head of the loop, [Q] of what the loop returns. *)
Variable I : Z -> list string -> Prop.
Variable Q : list string -> Prop.

Hypothesis exit_head :
  forall start chunks, I start chunks -> len content <= start -> Q chunks.

Hypothesis body_keeps :
  forall start chunks,
    I start chunks -> start < len content ->
    match simpleChunk_body content maxS ov start chunks with
    | Return (Continue start' chunks') => I start' chunks'
    | Return (Break chunks') => Q chunks'
    | Throw _ => True
    end.

Lemma simpleChunk_loop_invariant fuel start chunks r :
  I start chunks ->
  simpleChunk_loop fuel content maxS ov start chunks = Some (Return r) ->
  Q r.
Proof.
  revert start chunks. induction fuel as [|fuel IH]; intros start chunks HI; simpl.
  - destruct (Z.ltb_spec start (len content)); [discriminate |].
    intros [= <-]. eauto.
  - destruct (Z.ltb_spec start (len content)) as [Hlt|Hge];
      [| intros [= <-]; eauto].
    pose proof (body_keeps start chunks HI Hlt) as Hbody.
    destruct (simpleChunk_body content maxS ov start chunks)
      as [[start' chunks'|chunks']|e]; [eauto | | discriminate].
    intros [= <-]. exact Hbody.
Qed.

End LoopInvariant.

(** What [simpleChunk] returns is [keep_chunks] of what its loop returns. *)
Lemma simpleChunk_returns fuel content options r :
  simpleChunk fuel content options = Some (Return r) ->
  exists chunks,
    simpleChunk_loop fuel content (maxSize_of options) (overlap_of options) 0 []
    = Some (Return chunks) /\
    r = keep_chunks (minSize_of options) chunks.
Proof.
  unfold simpleChunk.
  destruct (simpleChunk_loop _ _ _ _ _ _) as [[chunks|e]|]; try discriminate.
  intros [= <-]. eauto.
Qed.

Lemma keep_chunks_Forall (P : string -> Prop) minS chunks :
  Forall P chunks -> Forall P (keep_chunks minS chunks).
Proof. apply filter_from_Forall. Qed.

(** *** Properties of [simpleChunk] *)

(** With [maxSize >= 1] no fragment of [simpleChunk] is longer than
    [maxSize]. *)
Theorem simpleChunk_fragments_within_maxSize fuel content options r :
  1 <= maxSize_of options ->
  simpleChunk fuel content options = Some (Return r) ->
  Forall (fun f => len f <= maxSize_of options) r.
Proof.
  intros HmaxS Hr. apply simpleChunk_returns in Hr as (chunks & Hloop & ->).
  apply keep_chunks_Forall. revert Hloop.
  apply (simpleChunk_loop_invariant content (maxSize_of options)
           (overlap_of options)
           (fun start chunks =>
              0 <= start /\ Forall (fun f => len f <= maxSize_of options) chunks)
           (fun chunks => Forall (fun f => len f <= maxSize_of options) chunks)).
  - intros start cs [_ H] _. exact H.
  - intros start cs [Hstart Hall] Hlt. rewrite simpleChunk_body_eq.
    destruct (Z.of_nat (length cs) >=? MAX_ARRAY_LENGTH); [exact Hall |].
    pose proof (window_end_gt content _ start HmaxS Hlt) as Hend.
    assert (Forall (fun f => len f <= maxSize_of options)
              (cs ++ [slice content start
                        (Some (window_end content (maxSize_of options) start))]))
      as Hall'.
    { apply Forall_app. split; [exact Hall |]. repeat constructor.
      rewrite len_slice_between; unfold window_end in *; lia. }
    cbv zeta. destruct (_ =? _); [exact Hall' |].
    split; [| exact Hall'].
    pose proof (next_start_gt start _ (overlap_of options) Hend). lia.
  - split; [lia | constructor].
Qed.

Lemma simpleChunk_fragments_within_maxSize_witness :
  Forall (fun f => len f <= 10)
    ["abcdefghij"; "hijklmnopq"; "opqrstuvwx"; "vwxy"].
Proof.
  apply (simpleChunk_fragments_within_maxSize 25 "abcdefghijklmnopqrstuvwxy"
           (mkChunkOptions (Some 5) (Some 10) (Some 3))).
  - unfold maxSize_of; simpl; lia.
  - reflexivity.
Defined.

(** Content that is not empty never comes back as no fragment at all. *)
Theorem simpleChunk_keeps_something fuel content options r :
  content <> "" ->
  simpleChunk fuel content options = Some (Return r) ->
  r <> [].
Proof.
  intros Hne Hr. apply simpleChunk_returns in Hr as (chunks & Hloop & ->).
  assert (0 < len content) as Hpos.
  { pose proof (len_nonneg content).
    destruct (Z.eq_dec (len content) 0) as [E|E];
      [apply len_zero_empty in E; contradiction | lia]. }
  assert (chunks <> []) as Hchunks.
  { revert Hloop.
    apply (simpleChunk_loop_invariant content (maxSize_of options)
             (overlap_of options)
             (fun start chunks => start = 0 \/ chunks <> [])
             (fun chunks => chunks <> [])).
    - intros start cs [-> | H] Hge; [lia | exact H].
    - intros start cs Hcs _. rewrite simpleChunk_body_eq.
      destruct (Z.of_nat (length cs) >=? MAX_ARRAY_LENGTH) eqn:Hfull.
      + destruct cs; [discriminate | discriminate].
      + cbv zeta. destruct (_ =? _); [| right]; now destruct cs.
    - now left. }
  destruct chunks as [|c chunks _] using rev_ind; [contradiction |].
  destruct (keep_chunks_snoc (minSize_of options) chunks c) as (kept & -> & _).
  now destruct kept.
Qed.

Lemma simpleChunk_keeps_something_witness :
  ["x"] <> [].
Proof.
  apply (simpleChunk_keeps_something 1 "x" defaultOptions);
    [discriminate | reflexivity].
Defined.

(** Every fragment but the last is at least [minSize] long. *)
Theorem simpleChunk_only_last_may_be_short fuel content options before last :
  simpleChunk fuel content options = Some (Return (before ++ [last])) ->
  Forall (fun f => minSize_of options <= len f) before.
Proof.
  intros Hr. apply simpleChunk_returns in Hr as (chunks & _ & Hkeep).
  destruct chunks as [|c chunks _] using rev_ind.
  - now destruct before.
  - destruct (keep_chunks_snoc (minSize_of options) chunks c)
      as (kept & Heq & Hkept & _).
    rewrite Heq in Hkeep. apply app_inj_tail in Hkeep as [-> _]. exact Hkept.
Qed.

Lemma simpleChunk_only_last_may_be_short_witness :
  Forall (fun f => 5 <= len f) ["abcdefghij"; "hijklmnopq"; "opqrstuvwx"].
Proof.
  apply (simpleChunk_only_last_may_be_short 25 "abcdefghijklmnopqrstuvwxy"
           (mkChunkOptions (Some 5) (Some 10) (Some 3))
           ["abcdefghij"; "hijklmnopq"; "opqrstuvwx"] "vwxy").
  reflexivity.
Defined.

(** When the windows do not overlap ([overlap = 0], or [overlap >= maxSize],
    which steps by the whole window) and [minSize <= maxSize], the fragments
    put end to end are the content: nothing is lost and nothing repeated. *)
Theorem simpleChunk_tiles_content fuel content options r :
  overlap_of options = 0 \/ maxSize_of options <= overlap_of options ->
  1 <= maxSize_of options ->
  minSize_of options <= maxSize_of options ->
  len content < MAX_ARRAY_LENGTH ->
  simpleChunk fuel content options = Some (Return r) ->
  String.concat "" r = content.
Proof.
  intros Hov HmaxS Hmin Hsmall Hr.
  apply simpleChunk_returns in Hr as (chunks & Hloop & ->). revert Hloop.
  set (minS := minSize_of options). set (maxS := maxSize_of options) in *.
  set (ov := overlap_of options) in *.
  apply (simpleChunk_loop_invariant content maxS ov
           (fun start chunks =>
              0 <= start <= len content /\
              String.concat "" chunks
              = String.substring 0 (Z.to_nat start) content /\
              Forall (fun f => minS <= len f) chunks /\
              Z.of_nat (length chunks) <= start)
           (fun chunks => String.concat "" (keep_chunks minS chunks) = content)).
  - intros start cs (Hstart & Hcat & Hall & _) Hge.
    rewrite keep_chunks_all, Hcat by exact Hall.
    replace (Z.to_nat start) with (String.length content) by (unfold len in *; lia).
    apply substring_all.
  - intros start cs (Hstart & Hcat & Hall & Hcount) Hlt.
    rewrite simpleChunk_body_eq.
    destruct (Z.geb_spec (Z.of_nat (length cs)) MAX_ARRAY_LENGTH); [lia |].
    cbv zeta. set (end_ := window_end content maxS start).
    assert (start < end_ <= len content) as Hend
      by (subst end_; unfold window_end; lia).
    assert (String.concat "" (cs ++ [slice content start (Some end_)])
            = String.substring 0 (Z.to_nat end_) content) as Hcat'.
    { rewrite concat_empty_snoc, Hcat, slice_between by lia.
      rewrite substring_glue. f_equal. lia. }
    destruct (Z.eqb_spec end_ (len content)) as [He|Hne].
    + destruct (keep_chunks_snoc minS cs (slice content start (Some end_)))
        as (kept & -> & _ & Hsame).
      rewrite (Hsame Hall), Hcat', He.
      replace (Z.to_nat (len content)) with (String.length content)
        by (unfold len; lia).
      apply substring_all.
    + assert (end_ = start + maxS) as Hfull
        by (subst end_; unfold window_end in *; lia).
      assert (next_start start end_ ov = end_) as ->.
      { unfold next_start. destruct (Z.gtb_spec (end_ - ov) start); lia. }
      split; [lia |]. split; [exact Hcat' |]. split.
      * apply Forall_app. split; [exact Hall |]. repeat constructor.
        rewrite len_slice_between; lia.
      * rewrite List.length_app. simpl length. lia.
  - split; [pose proof (len_nonneg content); lia |].
    split; [now destruct content |]. split; [constructor | simpl; lia].
Qed.

Lemma simpleChunk_tiles_content_witness :
  String.concat "" ["abcdefghij"; "klmnopqrst"; "uvwxy"]
  = "abcdefghijklmnopqrstuvwxy".
Proof.
  apply (simpleChunk_tiles_content 25 "abcdefghijklmnopqrstuvwxy"
           (mkChunkOptions (Some 5) (Some 10) (Some 0))).
  - left. reflexivity.
  - unfold maxSize_of; simpl; lia.
  - unfold minSize_of, maxSize_of; simpl; lia.
  - vm_compute. reflexivity.
  - reflexivity.
Defined.

(** *** Properties of [combineChunks] *)

(** What [combineChunks] returns, from the state its loop ends in. *)
Lemma combineChunks_eq chunks options :
  combineChunks chunks options
  = let st := foldl (combine_step (minSize_of options) (maxSize_of options)
                       (overlap_of options)) ([], "") chunks in
    if len st.2 >=? minSize_of options then st.1 ++ [st.2] else st.1.
Proof.
  unfold combineChunks. now destruct (foldl _ _ chunks).
Qed.

Lemma combine_step_floor minS maxS ov st chunk :
  Forall (fun f => Z.min minS (maxS - ov) <= len f) st.1 ->
  Forall (fun f => Z.min minS (maxS - ov) <= len f)
    (combine_step minS maxS ov st chunk).1.
Proof.
  destruct st as [result cur]. unfold combine_step. simpl. intros Hres.
  set (st1 :=
    if len cur + len chunk >? maxS then
      if len cur >=? minS then (result ++ [cur], chunk)
      else (result, cur +:+ " " +:+ chunk)
    else (result, cur +:+ (if truthy cur then " " else "") +:+ chunk)).
  assert (Forall (fun f => Z.min minS (maxS - ov) <= len f) st1.1) as H1.
  { subst st1. destruct (_ >? _); [| exact Hres].
    destruct (Z.geb_spec (len cur) minS); [| exact Hres]. simpl.
    apply Forall_app. split; [exact Hres | repeat constructor; lia]. }
  destruct st1 as [result1 cur1]. simpl in *.
  destruct (Z.geb_spec (len cur1) (maxS - ov)); simpl; [| exact H1].
  apply Forall_app. split; [exact H1 | repeat constructor; lia].
Qed.

(** No fragment that [combineChunks] emits is shorter than the smaller of
    [minSize] and [maxSize - overlap]. *)
Theorem combineChunks_fragments_not_short chunks options :
  Forall (fun f =>
            Z.min (minSize_of options) (maxSize_of options - overlap_of options)
            <= len f)
    (combineChunks chunks options).
Proof.
  rewrite combineChunks_eq. cbv zeta.
  set (minS := minSize_of options). set (maxS := maxSize_of options).
  set (ov := overlap_of options).
  assert (forall st,
             Forall (fun f => Z.min minS (maxS - ov) <= len f) st.1 ->
             Forall (fun f => Z.min minS (maxS - ov) <= len f)
               (foldl (combine_step minS maxS ov) st chunks).1) as Hfold.
  { induction chunks as [|c chunks IH]; intros st Hst; simpl; [exact Hst |].
    apply IH. now apply combine_step_floor. }
  specialize (Hfold ([], "") (Forall_nil_2 _)).
  destruct (Z.geb_spec (len (foldl (combine_step minS maxS ov) ([], "") chunks).2)
              minS); [| exact Hfold].
  apply Forall_app. split; [exact Hfold | repeat constructor; lia].
Qed.

(** The characters of the fragments, with one separator counted for each. *)
Definition joined_length (chunks : list string) : Z :=
  foldr (fun c total => len c + 1 + total) 0 chunks.

Lemma combine_step_small minS maxS ov cur chunk bound :
  len cur + len chunk + 1 <= bound ->
  bound < minS -> bound < maxS - ov ->
  exists cur',
    combine_step minS maxS ov ([], cur) chunk = ([], cur') /\
    len cur' <= len cur + len chunk + 1.
Proof.
  intros Hsum Hmin Hmax. unfold combine_step.
  pose proof (len_nonneg cur). pose proof (len_nonneg chunk).
  set (st1 :=
    if len cur + len chunk >? maxS then
      if len cur >=? minS then ([] ++ [cur], chunk)
      else ([], cur +:+ " " +:+ chunk)
    else ([], cur +:+ (if truthy cur then " " else "") +:+ chunk)).
  assert (st1.1 = [] /\ len st1.2 <= len cur + len chunk + 1) as [H1 H2].
  { subst st1. destruct (_ >? _).
    - destruct (Z.geb_spec (len cur) minS); [lia |]. simpl.
      split; [reflexivity |]. rewrite !len_app. change (len " ") with 1. lia.
    - simpl. split; [reflexivity |]. rewrite !len_app.
      destruct (truthy cur); [change (len " ") with 1 | change (len "") with 0];
        lia. }
  destruct st1 as [result1 cur1]. simpl in *. subst result1.
  destruct (Z.geb_spec (len cur1) (maxS - ov)); [lia |]. eauto.
Qed.

(** Input that is small as a whole is dropped: when the characters of the
    fragments, separators included, stay below both [minSize] and
    [maxSize - overlap], [combineChunks] returns no fragment. *)
Theorem combineChunks_drops_small_input chunks options :
  joined_length chunks < minSize_of options ->
  joined_length chunks < maxSize_of options - overlap_of options ->
  combineChunks chunks options = [].
Proof.
  intros Hmin Hmax. rewrite combineChunks_eq. cbv zeta.
  set (minS := minSize_of options) in *. set (maxS := maxSize_of options) in *.
  set (ov := overlap_of options) in *.
  assert (forall cur,
             len cur + joined_length chunks < minS ->
             len cur + joined_length chunks < maxS - ov ->
             exists cur',
               foldl (combine_step minS maxS ov) ([], cur) chunks = ([], cur') /\
               len cur' < minS) as Hfold.
  { clear Hmin Hmax. induction chunks as [|c chunks IH]; intros cur H1 H2.
    - exists cur. split; [reflexivity |]. simpl in H1. lia.
    - simpl in H1, H2. cbn [foldl].
      assert (0 <= joined_length chunks) as Hpos.
      { clear. induction chunks as [|x l IHl]; simpl;
          [lia | pose proof (len_nonneg x); lia]. }
      destruct (combine_step_small minS maxS ov cur c
                  (len cur + len c + 1)) as (cur1 & -> & Hlen); try lia.
      apply IH; lia. }
  destruct (Hfold "") as (cur' & -> & Hshort);
    [change (len "") with 0; lia | change (len "") with 0; lia |].
  simpl. destruct (Z.geb_spec (len cur') minS); [lia | reflexivity].
Qed.

Lemma combineChunks_drops_small_input_witness :
  combineChunks ["let x = 1"; "f(x)"] defaultOptions = [].
Proof.
  apply (combineChunks_drops_small_input ["let x = 1"; "f(x)"] defaultOptions);
    vm_compute; reflexivity.
Defined.

End ChunkerFacts.

(** ** Syntax-aware splitting ([utils.ts]: [getSplitChunks],
       [getDocumentSplitChunks]) *)

Module Splitter.
Import JS Chunker ChunkerFacts.

#[local] Set Warnings "-register-all".

(** A [SyntaxNode] of the parser, with the two fields that the traversal
    reads. *)
Inductive SyntaxNode : Type :=
| mkNode (text : string) (children : list SyntaxNode).

Definition node_text (node : SyntaxNode) : string :=
  match node with mkNode text _ => text end.

Definition node_children (node : SyntaxNode) : list SyntaxNode :=
  match node with mkNode _ children => children end.

(** The [while (start < node.text.length)] loop that cuts a leaf into
    windows of [maxSize].  [None] means that the loop was still running when
    the fuel ran out. *)
Fixpoint slice_leaf (fuel : nat) (text : string) (maxS start : Z)
    (chunks : list string) : option (list string) :=
  if start <? len text then
    match fuel with
    | O => None
    | S fuel' =>
        let end_ := Z.min (start + maxS) (len text) in
        slice_leaf fuel' text maxS end_ (chunks ++ [slice text start (Some end_)])
    end
  else Some chunks.

(** [traverse], threading the [chunks] array. *)
Fixpoint traverse (fuel : nat) (minS maxS : Z) (node : SyntaxNode)
    (chunks : list string) : option (list string) :=
  match node with
  | mkNode text children =>
      if (len text <=? maxS) && (len text >=? minS) then Some (chunks ++ [text])
      else if Z.of_nat (length children) >? 0 then
        (fix each (cs : list SyntaxNode) (acc : list string)
           : option (list string) :=
           match cs with
           | [] => Some acc
           | child :: cs' =>
               match traverse fuel minS maxS child acc with
               | Some acc' => each cs' acc'
               | None => None
               end
           end) children chunks
      else if len text >? maxS then slice_leaf fuel text maxS 0 chunks
      else Some chunks
  end.

(** The [for (const child of node.children)] loop. *)
Fixpoint traverse_each (fuel : nat) (minS maxS : Z) (cs : list SyntaxNode)
    (acc : list string) : option (list string) :=
  match cs with
  | [] => Some acc
  | child :: cs' =>
      match traverse fuel minS maxS child acc with
      | Some acc' => traverse_each fuel minS maxS cs' acc'
      | None => None
      end
  end.

Definition getSplitChunks (fuel : nat) (node : SyntaxNode)
    (options : ChunkOptions) : option (list string) :=
  traverse fuel (minSize_of options) (maxSize_of options) node [].

(** The options that [getDocumentSplitChunks] passes on, defaults filled
    in. *)
Definition resolved (options : ChunkOptions) : ChunkOptions :=
  mkChunkOptions (Some (minSize_of options)) (Some (maxSize_of options))
    (Some (overlap_of options)).

(** A parser, when there is one for the file, turns the content into the
    root node of its tree or throws. *)
Definition Parser : Type := string -> completion SyntaxNode.

Definition getDocumentSplitChunks (fuel : nat)
    (getParser : string -> completion (option Parser))
    (content filePath : string) (options : ChunkOptions)
    : option (completion (list string)) :=
  let attempt :=
    match getParser filePath with
    | Throw e => Some (Throw e)
    | Return None => simpleChunk fuel content (resolved options)
    | Return (Some parse) =>
        match parse content with
        | Throw e => Some (Throw e)
        | Return rootNode =>
            match getSplitChunks fuel rootNode
                    (mkChunkOptions (Some (minSize_of options))
                       (Some (maxSize_of options)) None) with
            | None => None
            | Some chunks =>
                Some (Return (combineChunks chunks (resolved options)))
            end
        end
    end in
  match attempt with
  | None => None
  | Some (Return fragments) => Some (Return fragments)
  | Some (Throw _) => simpleChunk fuel content (resolved options)
  end.

(** The longest text of a node of the tree. *)
Fixpoint longest_text (node : SyntaxNode) : Z :=
  match node with
  | mkNode text children =>
      Z.max (len text)
        (foldr (fun child longest => Z.max (longest_text child) longest) 0
           children)
  end.

(** Induction on a tree, with the hypothesis for every child. *)
Fixpoint SyntaxNode_induction (P : SyntaxNode -> Prop)
    (step : forall text children, Forall P children -> P (mkNode text children))
    (node : SyntaxNode) : P node :=
  match node with
  | mkNode text children =>
      step text children
        ((fix all (cs : list SyntaxNode) : Forall P cs :=
            match cs with
            | [] => Forall_nil_2 P
            | c :: cs' =>
                Forall_cons_2 P c cs' (SyntaxNode_induction P step c) (all cs')
            end) children)
  end.

(** *** Facts *)

Lemma traverse_eq fuel minS maxS text children chunks :
  traverse fuel minS maxS (mkNode text children) chunks
  = if (len text <=? maxS) && (len text >=? minS) then Some (chunks ++ [text])
    else if Z.of_nat (length children) >? 0
         then traverse_each fuel minS maxS children chunks
    else if len text >? maxS then slice_leaf fuel text maxS 0 chunks
    else Some chunks.
Proof.
  simpl. destruct (_ && _); [reflexivity |].
  destruct (_ >? 0); [| reflexivity].
  clear. revert chunks. induction children as [|c cs IH]; intros chunks;
    [reflexivity |].
  simpl. destruct (traverse fuel minS maxS c chunks); [apply IH | reflexivity].
Qed.

Section SliceLeaf.

Variable text : string.
Variable maxS : Z.
Hypothesis maxS_positive : 1 <= maxS.

Lemma slice_leaf_terminates fuel start chunks :
  (Z.to_nat (len text - start) <= fuel)%nat ->
  exists r, slice_leaf fuel text maxS start chunks = Some r.
Proof.
  revert start chunks. induction fuel as [|fuel IH]; intros start chunks Hfuel;
    simpl; destruct (Z.ltb_spec start (len text)); eauto; [lia |].
  apply IH. lia.
Qed.

Lemma slice_leaf_bounded fuel start chunks r :
  0 <= start ->
  Forall (fun f => len f <= maxS) chunks ->
  slice_leaf fuel text maxS start chunks = Some r ->
  Forall (fun f => len f <= maxS) r.
Proof.
  revert start chunks. induction fuel as [|fuel IH]; intros start chunks Hs Hall;
    simpl; destruct (Z.ltb_spec start (len text)); try discriminate;
    try (intros [= <-]; exact Hall).
  apply IH; [lia |]. apply Forall_app. split; [exact Hall |].
  repeat constructor. rewrite len_slice_between; lia.
Qed.

Lemma slice_leaf_tiles fuel start chunks r :
  0 <= start <= len text ->
  String.concat "" chunks = String.substring 0 (Z.to_nat start) text ->
  slice_leaf fuel text maxS start chunks = Some r ->
  String.concat "" r = text.
Proof.
  revert start chunks. induction fuel as [|fuel IH]; intros start chunks Hs Hcat;
    simpl; destruct (Z.ltb_spec start (len text)); try discriminate.
  - intros [= <-]. rewrite Hcat.
    replace (Z.to_nat start) with (String.length text) by (unfold len in *; lia).
    apply substring_all.
  - apply IH; [lia |].
    rewrite concat_empty_snoc, Hcat, slice_between by lia.
    rewrite substring_glue. f_equal. lia.
  - intros [= <-]. rewrite Hcat.
    replace (Z.to_nat start) with (String.length text) by (unfold len in *; lia).
    apply substring_all.
Qed.

End SliceLeaf.

Lemma longest_text_child text children child :
  child ∈ children -> longest_text child <= longest_text (mkNode text children).
Proof.
  intros Hin. simpl.
  enough (longest_text child
          <= foldr (fun c longest => Z.max (longest_text c) longest) 0 children)
    by lia.
  induction Hin as [c cs | c c' cs _ IH]; simpl; lia.
Qed.

Lemma traverse_terminates fuel minS maxS node :
  1 <= maxS ->
  (Z.to_nat (longest_text node) <= fuel)%nat ->
  forall chunks, exists r, traverse fuel minS maxS node chunks = Some r.
Proof.
  intros HmaxS. induction node as [text children IH] using SyntaxNode_induction.
  intros Hfuel chunks. rewrite traverse_eq.
  destruct (_ && _); [eauto |].
  destruct (_ >? 0).
  - assert (forall c, c ∈ children ->
                      (Z.to_nat (longest_text c) <= fuel)%nat) as Hchildren.
    { intros c Hc. pose proof (longest_text_child text children c Hc). lia. }
    clear Hfuel. revert chunks.
    induction IH as [|c cs Hc _ IHcs]; intros chunks; simpl; [eauto |].
    destruct (Hc (Hchildren c (list_elem_of_here _ _)) chunks) as [acc ->].
    apply IHcs. intros c' Hc'. apply Hchildren. now constructor.
  - destruct (_ >? maxS); [| eauto].
    apply slice_leaf_terminates; [exact HmaxS |]. simpl in Hfuel. lia.
Qed.

Lemma traverse_bounded fuel minS maxS node :
  1 <= maxS ->
  forall chunks r,
    Forall (fun f => len f <= maxS) chunks ->
    traverse fuel minS maxS node chunks = Some r ->
    Forall (fun f => len f <= maxS) r.
Proof.
  intros HmaxS. induction node as [text children IH] using SyntaxNode_induction.
  intros chunks r Hall. rewrite traverse_eq.
  destruct (Z.leb_spec (len text) maxS); simpl.
  - destruct (_ >=? minS).
    + intros [= <-]. apply Forall_app. split; [exact Hall |].
      repeat constructor. assumption.
    + destruct (_ >? 0).
      * revert chunks Hall.
        induction IH as [|c cs Hc _ IHcs]; intros chunks Hall; simpl;
          [intros [= <-]; exact Hall |].
        destruct (traverse fuel minS maxS c chunks) as [acc|] eqn:Hacc;
          [| discriminate].
        apply IHcs. eapply Hc; eassumption.
      * destruct (_ >? maxS); [| intros [= <-]; exact Hall].
        apply slice_leaf_bounded; [exact HmaxS | lia | exact Hall].
  - destruct (_ >? 0).
    + revert chunks Hall.
      induction IH as [|c cs Hc _ IHcs]; intros chunks Hall; simpl;
        [intros [= <-]; exact Hall |].
      destruct (traverse fuel minS maxS c chunks) as [acc|] eqn:Hacc;
        [| discriminate].
      apply IHcs. eapply Hc; eassumption.
    + destruct (_ >? maxS); [| intros [= <-]; exact Hall].
      apply slice_leaf_bounded; [exact HmaxS | lia | exact Hall].
Qed.

(** [simpleChunk] never throws. *)
Lemma simpleChunk_never_throws fuel content options e :
  simpleChunk fuel content options <> Some (Throw e).
Proof.
  unfold simpleChunk.
  assert (forall start chunks,
             simpleChunk_loop fuel content (maxSize_of options)
               (overlap_of options) start chunks <> Some (Throw e)) as Hloop.
  { induction fuel as [|fuel IH]; intros start chunks; simpl;
      destruct (start <? len content); try discriminate.
    destruct (simpleChunk_body_cases content (maxSize_of options)
                (overlap_of options) start chunks)
      as [[c ->] | [c [_ ->]]]; [discriminate | apply IH]. }
  specialize (Hloop 0 []).
  destruct (simpleChunk_loop _ _ _ _ _ _) as [[chunks|e']|];
    [discriminate | exact Hloop | discriminate].
Qed.

(** *** Properties of the syntax-aware splitter *)

(** With [maxSize >= 1] the traversal ends (fuel equal to the longest node
    text is enough) and none of its chunks is longer than [maxSize]. *)
Theorem getSplitChunks_returns_bounded_chunks fuel node options :
  1 <= maxSize_of options ->
  (Z.to_nat (longest_text node) <= fuel)%nat ->
  exists chunks,
    getSplitChunks fuel node options = Some chunks /\
    Forall (fun f => len f <= maxSize_of options) chunks.
Proof.
  intros HmaxS Hfuel. unfold getSplitChunks.
  destruct (traverse_terminates fuel (minSize_of options) (maxSize_of options)
              node HmaxS Hfuel []) as [r Hr].
  exists r. split; [exact Hr |].
  eapply traverse_bounded; [exact HmaxS | constructor | exact Hr].
Qed.

Lemma getSplitChunks_returns_bounded_chunks_witness :
  exists chunks,
    getSplitChunks 15
      (mkNode "function f() {}"
         [mkNode "function" []; mkNode "f() {}" []; mkNode "abcdefghijkl" []])
      (mkChunkOptions (Some 6) (Some 8) None)
    = Some chunks /\
    Forall (fun f => len f <= 8) chunks.
Proof.
  apply (getSplitChunks_returns_bounded_chunks 15
           (mkNode "function f() {}"
              [mkNode "function" []; mkNode "f() {}" []; mkNode "abcdefghijkl" []])
           (mkChunkOptions (Some 6) (Some 8) None)).
  - unfold maxSize_of; simpl; lia.
  - vm_compute. lia.
Defined.

Example getSplitChunks_example :
  getSplitChunks 12
    (mkNode "function f() {}"
       [mkNode "function" []; mkNode "f() {}" []; mkNode "abcdefghijkl" [];
        mkNode "x" []])
    (mkChunkOptions (Some 6) (Some 8) None)
  = Some ["function"; "f() {}"; "abcdefgh"; "ijkl"].
Proof. reflexivity. Qed.

(** A leaf longer than [maxSize] is cut into windows that, put end to end,
    are its text. *)
Theorem getSplitChunks_cuts_leaf_without_loss fuel text options chunks :
  1 <= maxSize_of options ->
  maxSize_of options < len text ->
  getSplitChunks fuel (mkNode text []) options = Some chunks ->
  String.concat "" chunks = text.
Proof.
  intros HmaxS Hlong. unfold getSplitChunks. rewrite traverse_eq.
  destruct (Z.leb_spec (len text) (maxSize_of options)); [lia |]. simpl.
  destruct (Z.gtb_spec (len text) (maxSize_of options)); [| lia].
  apply slice_leaf_tiles; [exact HmaxS | lia | now destruct text].
Qed.

Lemma getSplitChunks_cuts_leaf_without_loss_witness :
  String.concat "" ["abcdefgh"; "ijkl"] = "abcdefghijkl".
Proof.
  apply (getSplitChunks_cuts_leaf_without_loss 12 "abcdefghijkl"
           (mkChunkOptions (Some 6) (Some 8) None)).
  - unfold maxSize_of; simpl; lia.
  - unfold maxSize_of; vm_compute; reflexivity.
  - reflexivity.
Defined.

(** [getDocumentSplitChunks] does not throw, and without a parser, or when
    looking the parser up or parsing throws, it returns what [simpleChunk]
    returns. *)
Theorem getDocumentSplitChunks_falls_back fuel getParser content filePath options :
  (forall e,
      getDocumentSplitChunks fuel getParser content filePath options
      <> Some (Throw e))
  /\ (getParser filePath = Return None \/
      (exists e, getParser filePath = Throw e) \/
      (exists parse e,
          getParser filePath = Return (Some parse) /\ parse content = Throw e) ->
      getDocumentSplitChunks fuel getParser content filePath options
      = simpleChunk fuel content (resolved options)).
Proof.
  split.
  - intros e. unfold getDocumentSplitChunks.
    destruct (getParser filePath) as [[parse|]|e0];
      [| | apply simpleChunk_never_throws].
    + destruct (parse content) as [rootNode|e0];
        [| apply simpleChunk_never_throws].
      destruct (getSplitChunks _ _ _); discriminate.
    + destruct (simpleChunk fuel content (resolved options)) as [[r|e0]|] eqn:E;
        [discriminate | | discriminate].
      exfalso. exact (simpleChunk_never_throws _ _ _ _ E).
  - unfold getDocumentSplitChunks.
    intros [-> | [[e ->] | (parse & e & -> & ->)]]; [| reflexivity | reflexivity].
    destruct (simpleChunk fuel content (resolved options)) as [[r|e0]|] eqn:E;
      [reflexivity | | reflexivity].
    exfalso. exact (simpleChunk_never_throws _ _ _ _ E).
Qed.

Lemma getDocumentSplitChunks_falls_back_witness :
  getDocumentSplitChunks 3 (fun _ => Throw (SystemError "ENOENT"))
    "const x = 1" "a.xyz" defaultOptions
  = simpleChunk 3 "const x = 1" (resolved defaultOptions).
Proof.
  destruct (getDocumentSplitChunks_falls_back 3
              (fun _ => Throw (SystemError "ENOENT")) "const x = 1" "a.xyz"
              defaultOptions) as [_ H].
  apply H. right. left. eauto.
Defined.

(** With a parser, the fragments are those of [combineChunks] on chunks that
    are no longer than [maxSize], so none is longer than
    [maxSize + max 1 minSize]. *)
Theorem getDocumentSplitChunks_parsed_bounded fuel getParser content filePath
    options parse rootNode fragments :
  1 <= maxSize_of options ->
  getParser filePath = Return (Some parse) ->
  parse content = Return rootNode ->
  getDocumentSplitChunks fuel getParser content filePath options
  = Some (Return fragments) ->
  Forall (fun f =>
            len f <= maxSize_of options + Z.max 1 (minSize_of options))
    fragments.
Proof.
  intros HmaxS Hparser Hparse. unfold getDocumentSplitChunks.
  rewrite Hparser, Hparse.
  destruct (getSplitChunks _ _ _) as [chunks|] eqn:Hchunks; [| discriminate].
  intros [= <-].
  assert (Forall (fun f => len f <= maxSize_of options) chunks) as Hall.
  { unfold getSplitChunks in Hchunks.
    eapply traverse_bounded; [| constructor | exact Hchunks]. exact HmaxS. }
  rewrite combineChunks_eq. cbv zeta.
  change (minSize_of (resolved options)) with (minSize_of options).
  change (maxSize_of (resolved options)) with (maxSize_of options).
  change (overlap_of (resolved options)) with (overlap_of options).
  destruct (combine_fold_inv (minSize_of options) (maxSize_of options)
              (overlap_of options) chunks ([], "") Hall) as [Hres Hcur].
  { split; [constructor |]. unfold combine_bound. simpl.
    change (len "") with 0. lia. }
  unfold combine_bound in *.
  destruct (_ >=? _); [| exact Hres].
  apply Forall_app. split; [exact Hres | repeat constructor; exact Hcur].
Qed.

Lemma getDocumentSplitChunks_parsed_bounded_witness :
  Forall (fun f => len f <= 8 + Z.max 1 6)
    ["function"; "on f() {}"; "{} abcdefgh"; "gh ijkl"].
Proof.
  apply (getDocumentSplitChunks_parsed_bounded 12
           (fun _ => Return (Some (fun content =>
              Return (mkNode content
                        [mkNode "function" []; mkNode "f() {}" [];
                         mkNode "abcdefghijkl" []]))))
           "function f() {}" "a.ts" (mkChunkOptions (Some 6) (Some 8) (Some 2))
           (fun content =>
              Return (mkNode content
                        [mkNode "function" []; mkNode "f() {}" [];
                         mkNode "abcdefghijkl" []]))
           (mkNode "function f() {}"
              [mkNode "function" []; mkNode "f() {}" [];
               mkNode "abcdefghijkl" []])).
  - unfold maxSize_of; simpl; lia.
  - reflexivity.
  - reflexivity.
  - reflexivity.
Defined.

End Splitter.

(** ** More about the stream decoder *)

Module DecoderFacts.
Import JS Decoder.

(** The field in which a provider's chat response carries the delta:
    [content] for LlamaCpp, [choices[0].delta.content] for the others. *)
Definition chat_field (p : provider) (d : StreamResponse) (c : string) : Prop :=
  match p with
  | LlamaCpp => content d = Some c
  | _ => has_delta_content d c
  end.

(** The field in which a provider's fill-in-middle response carries the
    text. *)
Definition fim_field (p : provider) (d : StreamResponse) (c : string) : Prop :=
  match p with
  | Ollama | OpenWebUI => response d = Some c
  | LlamaCpp => content d = Some c
  | LiteLLM => has_delta_content d c
  | OtherProvider _ => has_choice_text d c
  end.

(** The providers whose chat branch guards the literal ["undefined"]. *)
Definition guards_literal (p : provider) : bool :=
  match p with
  | LiteLLM | OtherProvider _ => true
  | _ => false
  end.

Lemma chat_delta_content_opt_of d c :
  has_delta_content d c -> chat_delta_content_opt (Some d) = Return (Some c).
Proof.
  intros (ch & rest & dl & Hch & Hdl & Hc).
  unfold chat_delta_content_opt. rewrite Hch. simpl. rewrite Hdl. simpl.
  now rewrite Hc.
Qed.

Lemma delta_content_or_empty_of d c :
  has_delta_content d c -> delta_content_or_empty (Some d) = Return (Some c).
Proof.
  intros H. unfold delta_content_or_empty.
  rewrite (chat_delta_content_opt_of d c H). simpl.
  destruct c; simpl; [reflexivity |]. now apply chat_delta_content_of.
Qed.

Lemma is_literal_undefined_false c :
  c <> "undefined" -> is_literal_undefined (Some c) = false.
Proof. intros H. simpl. now apply String.eqb_neq. Qed.

Lemma chat_decoder_field p d c :
  chat_field p d c ->
  (guards_literal p = true -> c <> "undefined") ->
  getChatDataFromProvider p (Some d) = Return (Some c).
Proof.
  intros Hfield Hguard.
  destruct p; unfold chat_field, guards_literal in *;
    cbv beta iota delta [getChatDataFromProvider].
  - now apply delta_content_or_empty_of.
  - now apply delta_content_or_empty_of.
  - simpl. now rewrite Hfield.
  - rewrite (chat_delta_content_of d c Hfield).
    change (Return (Some c) ≫= ?k) with (k (Some c)). cbv beta.
    rewrite is_literal_undefined_false by auto.
    now apply delta_content_or_empty_of.
  - rewrite (chat_delta_content_of d c Hfield).
    change (Return (Some c) ≫= ?k) with (k (Some c)). cbv beta.
    rewrite is_literal_undefined_false by auto.
    now apply delta_content_or_empty_of.
Qed.

Lemma delta_content_or_empty_string data r :
  delta_content_or_empty data = Return r -> is_Some r.
Proof.
  unfold delta_content_or_empty, chat_delta_content_opt, chat_delta_content.
  destruct data as [d|]; simpl; [| intros [= <-]; eauto].
  destruct (index0 (choices d)) as [ch|e]; simpl; [| discriminate].
  destruct (get_delta ch) as [[dl|]|e]; simpl; [| intros [= <-]; eauto | discriminate].
  destruct (delta_content dl) as [c|] eqn:Hc; simpl; [| intros [= <-]; eauto].
  destruct (truthy c); rewrite ?Hc; intros [= <-]; eauto.
Qed.

(** *** The payload of a prefixed chunk *)

Lemma prefixed_is_prefixed body :
  isStreamWithDataPrefix ("data:" +:+ body) = true.
Proof. unfold isStreamWithDataPrefix, startsWith. simpl. now destruct body. Qed.

Lemma split_data_1_eq body :
  split_data_1 ("data:" +:+ body)
  = match String.index 0 "data:" body with
    | Some i => String.substring 0 i body
    | None => body
    end.
Proof.
  unfold split_data_1.
  assert (String.substring 5 (String.length ("data:" +:+ body) - 5)
            ("data:" +:+ body) = body) as ->; [| reflexivity].
  rewrite length_app. simpl String.length.
  replace (5 + String.length body - 5)%nat with (String.length body) by lia.
  change (String.substring 5 (String.length body) ("data:" +:+ body))
    with (String.substring 0 (String.length body) body).
  apply substring_all.
Qed.

(** *** Properties of the decoders *)

(** Round trip of the chat decoder: for every provider kind it returns the
    text that the response carries in that provider's field, the empty
    string included; only the literal ["undefined"] is withheld, by the
    providers that guard it. *)
Theorem chat_decoder_recovers_field p d c :
  chat_field p d c ->
  (guards_literal p = true -> c <> "undefined") ->
  getChatDataFromProvider p (Some d) = Return (Some c).
Proof.
  intros Hfield Hguard.
  destruct p; unfold chat_field, guards_literal in *;
    cbv beta iota delta [getChatDataFromProvider];
    try (now apply delta_content_or_empty_of).
  - simpl. now rewrite Hfield.
  - rewrite (chat_delta_content_of d c Hfield).
    change (Return (Some c) ≫= ?k) with (k (Some c)). cbv beta.
    rewrite is_literal_undefined_false by auto.
    now apply delta_content_or_empty_of.
  - rewrite (chat_delta_content_of d c Hfield).
    change (Return (Some c) ≫= ?k) with (k (Some c)). cbv beta.
    rewrite is_literal_undefined_false by auto.
    now apply delta_content_or_empty_of.
Qed.

Lemma chat_decoder_recovers_field_witness :
  getChatDataFromProvider LiteLLM (Some (chat_payload "let x"))
  = Return (Some "let x").
Proof.
  apply (chat_decoder_recovers_field LiteLLM (chat_payload "let x") "let x").
  - exists (mkChoice None (Some (mkDelta (Some "let x")))), [],
      (mkDelta (Some "let x")). repeat split; reflexivity.
  - intros _. discriminate.
Defined.

(** For every provider but LlamaCpp, a chat delta that is returned is a
    string, never [undefined]; for LlamaCpp it is [undefined] exactly when
    the response has no [content]. *)
Theorem chat_decoder_undefined_only_for_llamacpp p data r :
  getChatDataFromProvider p data = Return r ->
  match p with
  | LlamaCpp => r = data ≫= content
  | _ => is_Some r
  end.
Proof.
  destruct p; simpl; try apply delta_content_or_empty_string.
  - now intros [= <-].
  - destruct (chat_delta_content data) as [v|e]; simpl; [| discriminate].
    destruct (is_literal_undefined v); [intros [= <-]; eauto |].
    apply delta_content_or_empty_string.
  - destruct (chat_delta_content data) as [v|e]; simpl; [| discriminate].
    destruct (is_literal_undefined v); [intros [= <-]; eauto |].
    apply delta_content_or_empty_string.
Qed.

Lemma chat_decoder_undefined_only_for_llamacpp_witness :
  is_Some (Some "").
Proof.
  apply (chat_decoder_undefined_only_for_llamacpp Ollama
           (Some (mkStreamResponse None None
                    (Some [mkChoice None None]))) (Some "")).
  reflexivity.
Defined.

(** Round trip of the fill-in-middle decoder: it returns the text of the
    provider's field ([response], [content], [choices[0].delta.content] or,
    in the default branch, [choices[0].text], where the literal
    ["undefined"] is withheld); and a parse result of [undefined] gives
    [undefined] for every provider, without throwing. *)
Theorem fim_decoder_recovers_field p d c :
  (fim_field p d c ->
   (forall name, p = OtherProvider name -> c <> "undefined") ->
   getFimDataFromProvider p (Some d) = Return (Some c))
  /\ getFimDataFromProvider p None = Return None.
Proof.
  split; [| destruct p; reflexivity].
  intros Hfield Hguard. destruct p; simpl in *.
  - now rewrite Hfield.
  - now rewrite Hfield.
  - now rewrite Hfield.
  - now apply chat_delta_content_of.
  - pose proof (choice_text_of d c Hfield) as Ht.
    destruct Hfield as (ch & rest & Hch & Htext).
    unfold choice_text in *. rewrite Hch in *. simpl in *.
    rewrite Htext. simpl.
    rewrite (proj2 (String.eqb_neq c "undefined")) by eauto.
    destruct c; reflexivity.
Qed.

Lemma fim_decoder_recovers_field_witness :
  getFimDataFromProvider (OtherProvider "lmstudio")
    (Some (mkStreamResponse None None (Some [mkChoice (Some "x + 1") None])))
  = Return (Some "x + 1").
Proof.
  destruct (fim_decoder_recovers_field (OtherProvider "lmstudio")
              (mkStreamResponse None None (Some [mkChoice (Some "x + 1") None]))
              "x + 1") as [H _].
  apply H.
  - exists (mkChoice (Some "x + 1") None), []. split; reflexivity.
  - intros name _. discriminate.
Defined.

(** For a chunk ["data:" + body], [safeParseJsonResponse] hands to
    [JSON.parse] the body when ["data:"] does not occur in it again, and
    only the part of the body before the next occurrence otherwise; what
    [JSON.parse] throws becomes [undefined]. *)
Theorem payload_of_prefixed_chunk JSON_parse body :
  safeParseJsonResponse JSON_parse ("data:" +:+ body)
  = try_catch
      (JSON_parse
         match String.index 0 "data:" body with
         | Some i => String.substring 0 i body
         | None => body
         end)
      (fun _ => Return None).
Proof.
  unfold safeParseJsonResponse.
  rewrite prefixed_is_prefixed. now rewrite split_data_1_eq.
Qed.

(** A body that mentions ["data:"] is cut there. *)
Example payload_cut_at_second_marker :
  payload "data: {text: see data: x}" = " {text: see ".
Proof. reflexivity. Qed.

(** Decoding end to end: a chunk whose payload parses to a response that
    carries [c] in the provider's field decodes to [c], with the ["data:"]
    prefix (when the body does not contain ["data:"] again) and without
    it. *)
Theorem chunk_decodes_to_field JSON_parse p body d c :
  JSON_parse body = Return (Some d) ->
  chat_field p d c ->
  (guards_literal p = true -> c <> "undefined") ->
  (String.index 0 "data:" body = None ->
   (safeParseJsonResponse JSON_parse ("data:" +:+ body)
      ≫= getChatDataFromProvider p) = Return (Some c))
  /\ (isStreamWithDataPrefix body = false ->
      (safeParseJsonResponse JSON_parse body ≫= getChatDataFromProvider p)
      = Return (Some c)).
Proof.
  intros Hparse Hfield Hguard.
  pose proof (chat_decoder_field p d c Hfield Hguard) as Hdecode. split.
  - intros Hnone. unfold safeParseJsonResponse.
    rewrite prefixed_is_prefixed, split_data_1_eq, Hnone, Hparse. exact Hdecode.
  - intros Hplain. unfold safeParseJsonResponse.
    rewrite Hplain, Hparse. exact Hdecode.
Qed.

Lemma chunk_decodes_to_field_witness :
  (safeParseJsonResponse
     (fun text => if String.eqb text " {}"
                  then Return (Some (mkStreamResponse None (Some "hi") None))
                  else Throw SyntaxError)
     "data: {}" ≫= getChatDataFromProvider LlamaCpp) = Return (Some "hi").
Proof.
  destruct (chunk_decodes_to_field
              (fun text => if String.eqb text " {}"
                           then Return (Some (mkStreamResponse None (Some "hi") None))
                           else Throw SyntaxError)
              LlamaCpp " {}" (mkStreamResponse None (Some "hi") None) "hi")
    as [H _]; [reflexivity | reflexivity | intros [=] |].
  apply H. reflexivity.
Defined.

End DecoderFacts.

(** ** More about retrieval ([chat-service.ts]: [rerankFiles],
       [getRelevantFiles], and the guards of [getRelevantCode]) *)

Module RetrievalFacts.
Import JS Retrieval.

(** *** The file stage *)

Section FileStage.

Context {number embedding : Type}.

(** [path.basename]; it throws a [TypeError] on a value that is not a
    string. *)
Variable basename : string -> string.

(** [this._db.getDocuments(embedding, limit, table)], the call without a
    filter. *)
Variable getDocuments3 :
  embedding -> Z -> string -> option (list EmbeddedDocument).

Variable RELEVANT_FILE_COUNT : Z.

(** [filePaths.map((filePath) => path.basename(filePath))] *)
Fixpoint basenames (filePaths : list (option string))
    : completion (list string) :=
  match filePaths with
  | [] => Return []
  | None :: _ => Throw TypeError
  | Some filePath :: rest =>
      names ← basenames rest;
      Return (basename filePath :: names)
  end.

(** [filePaths.map((filePath, index) => [filePath, scores[index]])] *)
Fixpoint pair_scores (filePaths : list (option string)) (scores : list number)
    (index : nat) : list (option string * option number) :=
  match filePaths with
  | [] => []
  | filePath :: rest =>
      (filePath, scores !! index) :: pair_scores rest scores (S index)
  end.

Definition rerankFiles (env : Env number embedding) (text : option string)
    (filePaths : option (list (option string)))
    : completion (list (option string * option number)) :=
  match db env, text, workspace_name env, filePaths with
  | true, Some text, Some name, Some filePaths =>
      if negb (truthy text) || negb (truthy name)
         || (Z.of_nat (length filePaths) =? 0)
      then Return []
      else
        fileNames ← basenames filePaths;
        match rerank env text fileNames with
        | None => Return []
        | Some scores => Return (pair_scores filePaths scores 0)
        end
  | _, _, _, _ => Return []
  end.

Definition getRelevantFiles (env : Env number embedding) (text : option string)
    : completion (list (option string * option number)) :=
  match db env, text, workspace_name env with
  | true, Some text', Some name =>
      if negb (truthy text') || negb (truthy name) then Return []
      else
        let table := name +:+ "-file-paths" in
        if hasEmbeddingTable env table then
          match fetchModelEmbedding env text' with
          | None => Return []
          | Some emb =>
              let filePaths :=
                default [] (getDocuments3 emb RELEVANT_FILE_COUNT table) in
              if Z.of_nat (length filePaths) =? 0 then Return []
              else rerankFiles env text (Some (map doc_content filePaths))
          end
        else Return []
  | _, _, _ => Return []
  end.

(** The store is not usable for a query: there is no database, no query
    text or no workspace name. *)
Definition store_unusable (env : Env number embedding) (text : option string)
    : Prop :=
  db env = false \/ truthy_opt text = false \/
  truthy_opt (workspace_name env) = false.

Lemma pair_scores_paths filePaths scores index :
  map fst (pair_scores filePaths scores index) = filePaths.
Proof.
  revert index. induction filePaths as [|p rest IH]; intros index; simpl;
    [reflexivity | now rewrite IH].
Qed.

Lemma pair_scores_lookup filePaths scores index i p s :
  pair_scores filePaths scores index !! i = Some (p, s) ->
  filePaths !! i = Some p /\ s = scores !! (index + i)%nat.
Proof.
  revert index i. induction filePaths as [|q rest IH]; intros index i; simpl;
    [discriminate |].
  destruct i as [|i]; simpl.
  - intros [= <- <-]. now rewrite Nat.add_0_r.
  - intros H. apply IH in H as [H1 H2]. split; [exact H1 |].
    now rewrite H2, Nat.add_succ_comm.
Qed.

End FileStage.

(** *** The indexed filter, by position *)

Lemma filter_from_lookup {A} (p : A -> Z -> bool) i (l : list A) x :
  x ∈ filter_from p i l <->
  exists j, l !! j = Some x /\ p x (i + Z.of_nat j) = true.
Proof.
  revert i. induction l as [|y l IH]; intros i; simpl.
  - rewrite elem_of_nil. split; [tauto | intros (j & Hj & _); discriminate].
  - assert (x ∈ filter_from p (i + 1) l <->
            exists j, l !! j = Some x /\ p x (i + Z.of_nat (S j)) = true) as IH'.
    { rewrite IH. split; intros (j & Hj & Hp); exists j; split; auto;
        [replace (i + Z.of_nat (S j)) with (i + 1 + Z.of_nat j) by lia
        |replace (i + 1 + Z.of_nat j) with (i + Z.of_nat (S j)) by lia]; exact Hp. }
    destruct (p y i) eqn:Hy.
    + rewrite elem_of_cons, IH'. split.
      * intros [-> | (j & Hj & Hp)].
        -- exists 0%nat. split; [reflexivity |]. now rewrite Z.add_0_r.
        -- exists (S j). auto.
      * intros ([|j] & Hj & Hp).
        -- left. simpl in Hj. congruence.
        -- right. exists j. auto.
    + rewrite IH'. split.
      * intros (j & Hj & Hp). exists (S j). auto.
      * intros ([|j] & Hj & Hp).
        -- simpl in Hj. injection Hj as ->. rewrite Z.add_0_r in Hp. congruence.
        -- exists j. auto.
Qed.

Lemma filter_Boolean_none (l : list (option string)) :
  Forall (fun o => truthy_opt o = false) l -> filter_Boolean l = [].
Proof.
  unfold filter_Boolean. induction 1 as [|o l Ho _ IH]; [reflexivity |].
  destruct o as [s|]; simpl in *; [rewrite Ho |]; exact IH.
Qed.

(** *** Properties of retrieval *)

(** [rerankFiles] does not re-sort: when it returns pairs, they are the
    given paths in the given order, each with the score the reranker gave at
    the same position ([undefined] where the reranker returned fewer
    scores). *)
Theorem rerankFiles_keeps_order {number embedding : Type}
    (basename : string -> string) (env : Env number embedding)
    text filePaths pairs :
  rerankFiles basename env text (Some filePaths) = Return pairs ->
  pairs <> [] ->
  map fst pairs = filePaths /\
  exists query names scores,
    text = Some query /\ basenames basename filePaths = Return names /\
    rerank env query names = Some scores /\
    forall i p s, pairs !! i = Some (p, s) -> s = scores !! i.
Proof.
  unfold rerankFiles.
  destruct (db env); [| intros [= <-]; contradiction].
  destruct text as [query|]; [| intros [= <-]; contradiction].
  destruct (workspace_name env) as [name|]; [| intros [= <-]; contradiction].
  destruct (_ || _); [intros [= <-]; contradiction |].
  destruct (basenames basename filePaths) as [names|e] eqn:Hnames;
    [| discriminate]. simpl.
  destruct (rerank env query names) as [scores|] eqn:Hscores;
    [| intros [= <-]; contradiction].
  intros [= <-] _. split; [apply pair_scores_paths |].
  exists query, names, scores. repeat split; try assumption.
  intros i p s H. now apply pair_scores_lookup in H as [_ ->].
Qed.

Lemma rerankFiles_keeps_order_witness :
  map fst [(Some "src/b.ts", Some (3 # 10)%Q); (Some "src/a.ts", Some (9 # 10)%Q)]
  = [Some "src/b.ts"; Some "src/a.ts"].
Proof.
  apply (rerankFiles_keeps_order (fun path => path)
           (mkEnv true (Some "ws") None (fun _ => true) (fun _ => Some tt)
              (fun _ _ _ _ => None)
              (fun _ _ => Some [(3 # 10)%Q; (9 # 10)%Q])
              (fun _ => Throw (SystemError "ENOENT"))
              (fun _ => Throw (SystemError "ENOENT")))
           (Some "fix bug") [Some "src/b.ts"; Some "src/a.ts"]).
  - reflexivity.
  - discriminate.
Defined.

(** Without a usable store (no database, no query text or no workspace
    name) both stages return nothing and do not throw: the file stage the
    empty list, the code stage the empty string. *)
Theorem retrieval_empty_without_store {number embedding : Type}
    (gt : number -> number -> bool) (number_truthy : number -> bool)
    (DEFAULT_RERANK_THRESHOLD : number) (RELEVANT_CODE_COUNT : Z)
    (basename : string -> string)
    (getDocuments3 : embedding -> Z -> string -> option (list EmbeddedDocument))
    (RELEVANT_FILE_COUNT : Z) (env : Env number embedding) text relevantFiles :
  store_unusable env text ->
  getRelevantFiles basename getDocuments3 RELEVANT_FILE_COUNT env text
  = Return [] /\
  getRelevantCode gt number_truthy DEFAULT_RERANK_THRESHOLD RELEVANT_CODE_COUNT
    env text relevantFiles = "".
Proof.
  unfold store_unusable, getRelevantFiles, getRelevantCode.
  intros [-> | [Htext | Hname]]; [split; reflexivity | |].
  - destruct (db env); [| split; reflexivity].
    destruct text as [query|]; [| split; reflexivity]. simpl in Htext.
    destruct (workspace_name env); [| split; reflexivity].
    rewrite Htext. split; reflexivity.
  - destruct (db env); [| split; reflexivity].
    destruct text as [query|]; [| split; reflexivity].
    destruct (workspace_name env) as [name|]; [| split; reflexivity].
    simpl in Hname. rewrite Hname, orb_true_r. split; reflexivity.
Qed.

Lemma retrieval_empty_without_store_witness :
  getRelevantCode Qgtb Q_truthy (1 # 2)%Q 5 example_env (Some "")
    [("a.ts", (9 # 10)%Q)] = "".
Proof.
  destruct (retrieval_empty_without_store Qgtb Q_truthy (1 # 2)%Q 5
              (fun path => path) (fun _ _ _ => None) 5 example_env (Some "")
              [("a.ts", (9 # 10)%Q)]) as [_ H].
  - right. left. reflexivity.
  - exact H.
Defined.

(** When the documents table is missing, the query has no embedding or the
    reranker returns no scores for the fragments, [getRelevantCode] returns
    the empty string, whatever the files of the file stage are: none of them
    is read into the block. *)
Theorem getRelevantCode_empty_when_lookup_fails {number embedding : Type}
    (gt : number -> number -> bool) (number_truthy : number -> bool)
    (DEFAULT_RERANK_THRESHOLD : number) (RELEVANT_CODE_COUNT : Z)
    (env : Env number embedding) query name relevantFiles :
  workspace_name env = Some name ->
  hasEmbeddingTable env (name +:+ "-documents") = false \/
  fetchModelEmbedding env query = None \/
  (forall texts, rerank env query texts = None) ->
  getRelevantCode gt number_truthy DEFAULT_RERANK_THRESHOLD RELEVANT_CODE_COUNT
    env (Some query) relevantFiles = "".
Proof.
  intros Hname Hfail. unfold getRelevantCode. rewrite Hname.
  destruct (db env); [| reflexivity].
  destruct (_ || _); [reflexivity |].
  destruct Hfail as [-> | [-> | Hrerank]]; [reflexivity | |].
  - now destruct (hasEmbeddingTable env _).
  - destruct (hasEmbeddingTable env _); [| reflexivity].
    destruct (fetchModelEmbedding env query); [| reflexivity].
    now rewrite Hrerank.
Qed.

Lemma getRelevantCode_empty_when_lookup_fails_witness :
  getRelevantCode Qgtb Q_truthy (1 # 2)%Q 5
    (mkEnv true (Some "ws") None (fun _ => true) (fun _ => Some tt)
       (fun _ _ _ _ => Some [mkEmbeddedDocument (Some "f()")])
       (fun _ _ => None)
       (fun _ => Return 3) (fun _ => Return "abc"))
    (Some "fix bug") [("a.ts", (9 # 10)%Q)] = "".
Proof.
  apply (getRelevantCode_empty_when_lookup_fails Qgtb Q_truthy (1 # 2)%Q 5
           (mkEnv true (Some "ws") None (fun _ => true) (fun _ => Some tt)
              (fun _ _ _ _ => Some [mkEmbeddedDocument (Some "f()")])
              (fun _ _ => None)
              (fun _ => Return 3) (fun _ => Return "abc"))
           "fix bug" "ws").
  - reflexivity.
  - right. right. reflexivity.
Defined.

(** A fragment is kept by the code stage exactly when it is the content of
    a document whose score, at the same position in the reranker's answer,
    is strictly above the threshold; a document without a score is
    dropped. *)
Theorem documentChunks_admitted_iff {number : Type}
    (gt : number -> number -> bool) (threshold : number)
    (documents : list EmbeddedDocument) (scores : list number) c :
  c ∈ documentChunks gt threshold documents scores <->
  exists i d score,
    documents !! i = Some d /\ doc_content d = c /\
    scores !! i = Some score /\ gt score threshold = true.
Proof.
  unfold documentChunks, filter_indexed.
  change (map doc_content) with (fmap (M := list) doc_content).
  rewrite list_elem_of_fmap. split.
  - intros (d & -> & Hd). apply filter_from_lookup in Hd as (j & Hj & Hp).
    cbv beta in Hp. rewrite Z.add_0_l, Nat2Z.id in Hp.
    destruct (scores !! j) as [score|] eqn:Hs; [| discriminate].
    exists j, d, score. auto.
  - intros (i & d & score & Hd & <- & Hs & Hgt). exists d. split; [reflexivity |].
    apply filter_from_lookup. exists i. split; [exact Hd |].
    cbv beta. rewrite Z.add_0_l, Nat2Z.id, Hs. exact Hgt.
Qed.

(** When no file read and no fragment is admitted (every entry is [null],
    [undefined] or the empty string), the code block is the empty string:
    the blank line between the two groups is trimmed away. *)
Theorem code_block_empty_when_nothing_admitted readFileChunks documentChunks :
  Forall (fun o => truthy_opt o = false) readFileChunks ->
  Forall (fun o => truthy_opt o = false) documentChunks ->
  code_block readFileChunks documentChunks = "".
Proof.
  intros Hreads Hdocs. unfold code_block.
  now rewrite (filter_Boolean_none _ Hreads), (filter_Boolean_none _ Hdocs).
Qed.

Lemma code_block_empty_when_nothing_admitted_witness :
  code_block [None; Some ""] [Some ""] = "".
Proof.
  apply (code_block_empty_when_nothing_admitted [None; Some ""] [Some ""]);
    repeat constructor.
Defined.

End RetrievalFacts.

(** ** More about the session controller *)

Module SessionFacts.
Import JS Decoder Session.

(** The [onEnd] calls recorded in a trace, oldest first. *)
Definition onEnd_calls (s : State) : list (handler * string) :=
  omap (fun e => match e with CallOnEnd h c => Some (h, c) | _ => None end)
    (trace s).

(** The transports opened in a trace. *)
Definition opened (s : State) : list nat :=
  omap (fun e => match e with OpenStream c => Some c | _ => None end) (trace s).

Lemma onEnd_calls_emit e s :
  onEnd_calls (emit e s)
  = onEnd_calls s ++ match e with CallOnEnd h c => [(h, c)] | _ => [] end.
Proof.
  unfold onEnd_calls, emit. simpl. rewrite omap_app. destruct e; reflexivity.
Qed.

Lemma onEnd_calls_postMessage cfg m s :
  onEnd_calls (postMessage cfg m s) = onEnd_calls s.
Proof.
  unfold postMessage. destruct (_view cfg); [| reflexivity].
  rewrite onEnd_calls_emit. apply app_nil_r.
Qed.

Lemma opened_emit e s :
  opened (emit e s)
  = opened s ++ match e with OpenStream c => [c] | _ => [] end.
Proof.
  unfold opened, emit. simpl. rewrite omap_app. destruct e; reflexivity.
Qed.

Lemma opened_postMessage cfg m s : opened (postMessage cfg m s) = opened s.
Proof.
  unfold postMessage. destruct (_view cfg); [| reflexivity].
  rewrite opened_emit. apply app_nil_r.
Qed.

Lemma trace_postMessage cfg m s :
  trace (postMessage cfg m s)
  = trace s ++ (if _view cfg then [PostMessage m] else []).
Proof.
  unfold postMessage. destruct (_view cfg); [reflexivity | now rewrite app_nil_r].
Qed.

(** Aborting [c] marks its transport and leaves the others. *)
Lemma abort_transports c s :
  transports (abort c s)
  = alter (fun t => mkTransport (request t) (onEnd_of t) true (closed t)) c
      (transports s).
Proof. reflexivity. Qed.

Lemma live_abort_fresh s req onEnd :
  filter (fun t => is_live t = true)
    (alter (fun t => mkTransport (request t) (onEnd_of t) true (closed t))
       (length (transports s))
       (transports s ++ [mkTransport req onEnd false false]))
  = live s.
Proof.
  unfold live.
  rewrite alter_app_r_alt by lia. rewrite Nat.sub_diag, filter_app. simpl.
  rewrite filter_cons_False by (unfold is_live; simpl; discriminate).
  now rewrite filter_nil, app_nil_r.
Qed.

(** *** Properties *)

(** Cancelling a tracked stream: [destroyStream] calls [abort()] once, on
    the tracked handle; that transport is marked aborted and every other
    transport is left as it was; the accumulated text is kept, and one
    terminal [twinnyOnEnd] event carries it, trimmed at the start. *)
Theorem destroyStream_aborts_tracked cfg s c t :
  _controller s = Some c ->
  transports s !! c = Some t ->
  transports (destroyStream cfg s) !! c
  = Some (mkTransport (request t) (onEnd_of t) true (closed t)) /\
  (forall c', c' <> c ->
              transports (destroyStream cfg s) !! c' = transports s !! c') /\
  _completion (destroyStream cfg s) = _completion s /\
  trace (destroyStream cfg s)
  = trace s
    ++ [Abort c; SetStatusBar robot; SetContextGeneratingText true]
    ++ (if _view cfg
        then [PostMessage
                (twinnyOnEnd
                   (Some (trimStart (_completion s), _promptTemplate s)))]
        else []).
Proof.
  intros Hc Ht. unfold destroyStream.
  rewrite completion_postMessage, transports_postMessage, trace_postMessage.
  unfold abort_controller. rewrite Hc. simpl.
  split; [now rewrite list_lookup_alter_eq, Ht |].
  split; [intros c' Hne; now rewrite list_lookup_alter_ne by auto |].
  split; [reflexivity |].
  now rewrite <- !app_assoc.
Qed.

Lemma destroyStream_aborts_tracked_witness :
  aborted <$>
    transports
      (destroyStream ollama_config
         (streamResponse ollama_config [mkMessage USER (Some "hi")] None initial))
    !! 0%nat
  = Some true.
Proof.
  destruct (destroyStream_aborts_tracked ollama_config
              (streamResponse ollama_config [mkMessage USER (Some "hi")] None
                 initial)
              0%nat (mkTransport [mkMessage USER (Some "hi")] None false false))
    as [H _]; [reflexivity | reflexivity |].
  now rewrite H.
Defined.

(** A stop request right after a start aborts the stream just opened and
    no other: the live transports are again those from before the start. *)
Theorem stop_after_start_restores_live cfg req onEnd s :
  live (onStopGeneration (streamResponse cfg req onEnd s)) = live s /\
  transports (onStopGeneration (streamResponse cfg req onEnd s))
  = transports s ++ [mkTransport req onEnd true false].
Proof.
  unfold onStopGeneration, abort_controller.
  destruct (streamResponse_opens cfg req onEnd s) as [Hc Ht].
  rewrite Hc. unfold live. rewrite abort_transports, Ht. split.
  - apply live_abort_fresh.
  - rewrite alter_app_r_alt by lia. now rewrite Nat.sub_diag.
Qed.

(** Normal closure: [onStreamEnd] posts exactly one terminal [twinnyOnEnd]
    event; with an [onEnd] handler the handler is called once, with the
    untrimmed accumulated text, and the event carries no text; without one
    the event carries the trimmed text.  The accumulated text, the tracked
    handle and the transports are left as they are. *)
Theorem onStreamEnd_terminal_event cfg onEnd s :
  posted (onStreamEnd cfg onEnd s)
  = posted s
    ++ (if _view cfg
        then [twinnyOnEnd
                match onEnd with
                | Some _ => None
                | None => Some (trimStart (_completion s), _promptTemplate s)
                end]
        else []) /\
  onEnd_calls (onStreamEnd cfg onEnd s)
  = onEnd_calls s
    ++ match onEnd with Some h => [(h, _completion s)] | None => [] end /\
  _completion (onStreamEnd cfg onEnd s) = _completion s /\
  _controller (onStreamEnd cfg onEnd s) = _controller s /\
  transports (onStreamEnd cfg onEnd s) = transports s.
Proof.
  unfold onStreamEnd. destruct onEnd as [h|];
    rewrite posted_postMessage, onEnd_calls_postMessage, completion_postMessage,
      controller_postMessage, transports_postMessage, !posted_emit,
      !onEnd_calls_emit, !app_nil_r; repeat split; reflexivity.
Qed.

(** The deltas of a run of chunks, appended in arrival order. *)
Definition accumulate (text : string) (ds : list (option string)) : string :=
  foldl concat_opt text ds.

(** A run of chunks that decode to the deltas [ds] leaves the accumulated
    text extended by the deltas in arrival order, with or without an [onEnd]
    handler; without a handler it posts one incremental event per chunk,
    each carrying the text accumulated up to that chunk, trimmed at the
    start, and with a handler it posts nothing. *)
Theorem stream_accumulates_in_order cfg p chunks ds onEnd s :
  activeProvider cfg = Some p -> _view cfg = true ->
  Forall2 (fun chunk d => getChatDataFromProvider p chunk = Return d) chunks ds ->
  _completion (foldl (fun s chunk => onStreamData cfg chunk onEnd s) s chunks)
  = accumulate (_completion s) ds /\
  incremental (foldl (fun s chunk => onStreamData cfg chunk onEnd s) s chunks)
  = incremental s
    ++ match onEnd with
       | Some _ => []
       | None => map trimStart (growing_prefixes (_completion s) ds)
       end.
Proof.
  intros Hp Hview Hall. revert s.
  induction Hall as [|chunk d chunks ds Hd _ IH]; intros s; simpl.
  - split; [reflexivity |]. destruct onEnd; now rewrite app_nil_r.
  - destruct (IH (onStreamData cfg chunk onEnd s)) as [IH1 IH2].
    rewrite IH1, IH2. clear IH IH1 IH2.
    destruct onEnd as [h|].
    + unfold onStreamData. rewrite Hp, Hd. simpl. split; reflexivity.
    + rewrite (onStreamData_decoded cfg p chunk d s Hp Hview Hd). simpl.
      split; [reflexivity |].
      unfold incremental at 1. rewrite posted_emit, omap_app. simpl.
      unfold incremental, posted. simpl. now rewrite <- app_assoc.
Qed.

Lemma stream_accumulates_in_order_witness :
  _completion
    (foldl (fun s chunk => onStreamData ollama_config chunk None s) initial
       [Some (chat_payload " let"); Some (chat_payload " x")])
  = " let x" /\
  incremental
    (foldl (fun s chunk => onStreamData ollama_config chunk None s) initial
       [Some (chat_payload " let"); Some (chat_payload " x")])
  = ["let"; "let x"].
Proof.
  apply (stream_accumulates_in_order ollama_config Ollama
           [Some (chat_payload " let"); Some (chat_payload " x")]
           [Some " let"; Some " x"] None initial);
    [reflexivity | reflexivity |].
  repeat constructor.
Defined.

(** With the LlamaCpp provider a chunk in which the [content] field is
    absent (or no chunk at all, [undefined]) is not skipped: the decoder
    returns [undefined], and the nine characters of ["undefined"] are
    appended to the accumulated text. *)
Theorem llamacpp_chunk_without_content_appends_undefined cfg chunk onEnd s :
  activeProvider cfg = Some LlamaCpp ->
  chunk ≫= content = None ->
  _completion (onStreamData cfg chunk onEnd s)
  = _completion s +:+ "undefined".
Proof.
  intros Hp Hnone. unfold onStreamData. rewrite Hp. simpl. rewrite Hnone.
  destruct onEnd; [reflexivity |]. now rewrite completion_postMessage.
Qed.

Lemma llamacpp_chunk_without_content_appends_undefined_witness :
  _completion
    (onStreamData (mkConfig true (Some LlamaCpp) false false)
       (Some (mkStreamResponse None None None)) None
       (set_completion "let x" initial))
  = "let xundefined".
Proof.
  apply (llamacpp_chunk_without_content_appends_undefined
           (mkConfig true (Some LlamaCpp) false false)
           (Some (mkStreamResponse None None None)) None
           (set_completion "let x" initial));
    reflexivity.
Defined.

(** *** Starting a chat session *)

(** The retrieval context that [getRagContext] returns. *)
Definition rag_context (cfg : Config) (ext : Collaborators)
    (text : option string) : option string :=
  if negb (isRagEnabled cfg) || symmetryConnected cfg then None
  else retrieve ext text.

(** The last message of the request that [streamChatCompletion] builds: the
    caller's last message, or, when there is selected code or retrieval
    context, a user message that carries the text and the context. *)
Definition final_message (cfg : Config) (ext : Collaborators)
    (lastMessage : Message) : Message :=
  let selected :=
    if truthy_opt (editorSelection ext)
    then "Selected Code:" +:+ String "010" ""
         +:+ toString_opt (editorSelection ext) +:+ blank_line
    else "" in
  let rag := rag_context cfg ext (msg_content lastMessage) in
  let additionalContext :=
    if truthy_opt rag
    then selected +:+ "Additional Context:" +:+ String "010" ""
         +:+ toString_opt rag +:+ blank_line
    else selected in
  if truthy additionalContext
  then mkMessage USER
         (Some (toString_opt (msg_content lastMessage) +:+ blank_line
                +:+ trim additionalContext))
  else lastMessage.

Lemma getRagContext_eq cfg ext text s :
  getRagContext cfg ext text s
  = (if negb (isRagEnabled cfg) || symmetryConnected cfg then s
     else updateLoadingMessage cfg "Exploring knowledge base" s,
     rag_context cfg ext text).
Proof.
  unfold getRagContext, rag_context.
  now destruct (negb (isRagEnabled cfg) || symmetryConnected cfg).
Qed.

Lemma removelast_last {A} (l : list A) x :
  last l = Some x -> removelast l ++ [x] = l.
Proof.
  induction l as [|y [|z l] IH]; [discriminate | |].
  - intros [= ->]. reflexivity.
  - intros H. change (removelast (y :: z :: l)) with (y :: removelast (z :: l)).
    simpl app. f_equal. apply IH. exact H.
Qed.

(** The state in which [streamChatCompletion] builds its request. *)
Definition chat_prelude (cfg : Config) (ext : Collaborators)
    (lastMessage : Message) (s : State) : State :=
  updateLoadingMessage cfg "Thinking"
    (getRagContext cfg ext (msg_content lastMessage)
       (sendEditorLanguage cfg (set_completion "" s))).1.

Lemma chat_prelude_fields cfg ext lastMessage s :
  _completion (chat_prelude cfg ext lastMessage s) = "" /\
  _controller (chat_prelude cfg ext lastMessage s) = _controller s /\
  transports (chat_prelude cfg ext lastMessage s) = transports s /\
  opened (chat_prelude cfg ext lastMessage s) = opened s.
Proof.
  unfold chat_prelude, updateLoadingMessage, sendEditorLanguage.
  rewrite getRagContext_eq. simpl. unfold updateLoadingMessage.
  destruct (negb (isRagEnabled cfg) || symmetryConnected cfg);
    rewrite ?completion_postMessage, ?controller_postMessage,
      ?transports_postMessage, ?opened_postMessage; repeat split; reflexivity.
Qed.

Lemma streamChatCompletion_eq cfg ext messages lastMessage s :
  last messages = Some lastMessage ->
  streamChatCompletion cfg ext messages s
  = Return
      (match activeProvider cfg with
       | None => chat_prelude cfg ext lastMessage s
       | Some _ =>
           streamResponse cfg
             (mkMessage SYSTEM (readSystemMessageTemplate ext (_promptTemplate s))
              :: removelast messages ++ [final_message cfg ext lastMessage])
             None (chat_prelude cfg ext lastMessage s)
       end).
Proof.
  intros Hlast. unfold streamChatCompletion. rewrite Hlast.
  unfold chat_prelude, final_message. rewrite getRagContext_eq.
  cbv beta iota zeta. unfold buildStreamRequest, sendEditorLanguage.
  rewrite promptTemplate_postMessage. simpl _promptTemplate.
  set (additionalContext :=
         if truthy_opt (rag_context cfg ext (msg_content lastMessage))
         then _ else _).
  destruct (activeProvider cfg); simpl fst;
    destruct (truthy additionalContext); reflexivity.
Qed.



(** Without an active provider nothing is sent: [streamChatCompletion]
    opens no transport and keeps the tracked handle, although it has already
    emptied the accumulated text. *)
Theorem streamChatCompletion_without_provider cfg ext messages s s' :
  activeProvider cfg = None ->
  streamChatCompletion cfg ext messages s = Return s' ->
  transports s' = transports s /\
  opened s' = opened s /\
  _controller s' = _controller s /\
  _completion s' = "".
Proof.
  intros Hp. destruct (last messages) as [lastMessage|] eqn:Hlast.
  - rewrite (streamChatCompletion_eq cfg ext messages lastMessage s Hlast), Hp.
    intros [= <-].
    destruct (chat_prelude_fields cfg ext lastMessage s) as (H1 & H2 & H3 & H4).
    auto.
  - apply last_None in Hlast as ->. discriminate.
Qed.

Lemma streamChatCompletion_without_provider_witness :
  transports
    (updateLoadingMessage (mkConfig true None false false) "Thinking"
       (sendEditorLanguage (mkConfig true None false false)
          (set_completion "" (set_completion "old" initial))))
  = [].
Proof.
  destruct (streamChatCompletion_without_provider
              (mkConfig true None false false) no_collaborators
              [mkMessage USER (Some "hi")] (set_completion "old" initial)
              (updateLoadingMessage (mkConfig true None false false) "Thinking"
                 (sendEditorLanguage (mkConfig true None false false)
                    (set_completion "" (set_completion "old" initial)))))
    as [H _]; [reflexivity | reflexivity |].
  exact H.
Defined.

(** The request of a chat session: the system message, then the caller's
    messages but the last, unchanged and in order, then the last message,
    which is the caller's own when there is neither selected code nor
    retrieval context, so that the request is then the system message
    followed by the caller's messages. *)
Theorem streamChatCompletion_request cfg ext messages lastMessage s s' :
  is_Some (activeProvider cfg) ->
  last messages = Some lastMessage ->
  streamChatCompletion cfg ext messages s = Return s' ->
  let systemMessage :=
    mkMessage SYSTEM (readSystemMessageTemplate ext (_promptTemplate s)) in
  transports s'
  = transports s
    ++ [mkTransport
          (systemMessage :: removelast messages
             ++ [final_message cfg ext lastMessage])
          None false false] /\
  (truthy_opt (editorSelection ext) = false ->
   truthy_opt (rag_context cfg ext (msg_content lastMessage)) = false ->
   request <$> transports s' !! length (transports s)
   = Some (systemMessage :: messages)).
Proof.
  intros [p Hp] Hlast.
  rewrite (streamChatCompletion_eq cfg ext messages lastMessage s Hlast), Hp.
  intros [= <-]. cbv zeta.
  destruct (chat_prelude_fields cfg ext lastMessage s) as (_ & _ & Ht & _).
  match goal with
  | |- context [streamResponse cfg ?req None ?s0] =>
      destruct (streamResponse_opens cfg req None s0) as [_ Hopen]
  end.
  rewrite Hopen, Ht. split; [reflexivity |].
  intros Hsel Hrag. rewrite lookup_app_r by lia. rewrite Nat.sub_diag. simpl.
  unfold final_message. rewrite Hsel, Hrag. simpl.
  now rewrite (removelast_last messages lastMessage Hlast).
Qed.

Lemma streamChatCompletion_request_witness :
  request <$>
    transports
      (streamResponse ollama_config
         [mkMessage SYSTEM None; mkMessage "assistant" (Some "yes?");
          mkMessage USER (Some "hi")] None
         (updateLoadingMessage ollama_config "Thinking"
            (sendEditorLanguage ollama_config initial)))
    !! 0%nat
  = Some [mkMessage SYSTEM None; mkMessage "assistant" (Some "yes?");
          mkMessage USER (Some "hi")].
Proof.
  destruct (streamChatCompletion_request ollama_config no_collaborators
              [mkMessage "assistant" (Some "yes?"); mkMessage USER (Some "hi")]
              (mkMessage USER (Some "hi")) initial
              (streamResponse ollama_config
                 [mkMessage SYSTEM None; mkMessage "assistant" (Some "yes?");
                  mkMessage USER (Some "hi")] None
                 (updateLoadingMessage ollama_config "Thinking"
                    (sendEditorLanguage ollama_config initial))))
    as [_ H]; [eexists; reflexivity | reflexivity | reflexivity |].
  apply H; reflexivity.
Defined.

(** Selected code is sent with the last message: the request then ends with
    a user message that holds the text, a blank line, and the selection
    under its label. *)
Example streamChatCompletion_with_selection :
  final_message ollama_config
    (mkCollaborators (Some "f(x)") None (fun _ => None) (fun _ _ _ => None)
       (fun t => t) (fun _ => None))
    (mkMessage "assistant" (Some "explain"))
  = mkMessage USER
      (Some ("explain" +:+ blank_line +:+ "Selected Code:" +:+ String "010" ""
             +:+ "f(x)")).
Proof. reflexivity. Qed.

(** *** Template sessions *)

(** The collaborators with another retrieval pipeline. *)
Definition with_retrieve (retrieve' : option string -> option string)
    (ext : Collaborators) : Collaborators :=
  mkCollaborators (editorSelection ext) (langName ext)
    (readSystemMessageTemplate ext) (readTemplate ext) (kebabToSentence ext)
    retrieve'.

(** [getTemplateMessages] empties the accumulated text, records the
    template name, opens or aborts nothing, and always returns a
    conversation of two messages, a system message and a user message; for
    every template but ["explain"] the conversation does not depend on the
    retrieval pipeline. *)
Theorem getTemplateMessages_conversation cfg ext template context skipMessage s :
  _completion (getTemplateMessages cfg ext template context skipMessage s).1 = ""
  /\ _promptTemplate
       (getTemplateMessages cfg ext template context skipMessage s).1 = template
  /\ _controller
       (getTemplateMessages cfg ext template context skipMessage s).1
     = _controller s
  /\ transports
       (getTemplateMessages cfg ext template context skipMessage s).1
     = transports s
  /\ map role (getTemplateMessages cfg ext template context skipMessage s).2
     = [SYSTEM; USER]
  /\ (template <> "explain" ->
      forall retrieve',
        getTemplateMessages cfg (with_retrieve retrieve' ext) template context
          skipMessage s
        = getTemplateMessages cfg ext template context skipMessage s).
Proof.
  split; [| split; [| split; [| split; [| split]]]].
  - unfold getTemplateMessages, sendEditorLanguage, focusChatTab.
    destruct (String.eqb template "explain"); [rewrite getRagContext_eq |];
      simpl; unfold updateLoadingMessage;
      destruct skipMessage;
      try destruct (negb (isRagEnabled cfg) || symmetryConnected cfg);
      rewrite ?completion_postMessage; reflexivity.
  - unfold getTemplateMessages, sendEditorLanguage, focusChatTab.
    destruct (String.eqb template "explain"); [rewrite getRagContext_eq |];
      simpl; unfold updateLoadingMessage;
      destruct skipMessage;
      try destruct (negb (isRagEnabled cfg) || symmetryConnected cfg);
      rewrite ?promptTemplate_postMessage; reflexivity.
  - unfold getTemplateMessages, sendEditorLanguage, focusChatTab.
    destruct (String.eqb template "explain"); [rewrite getRagContext_eq |];
      simpl; unfold updateLoadingMessage;
      destruct skipMessage;
      try destruct (negb (isRagEnabled cfg) || symmetryConnected cfg);
      rewrite ?controller_postMessage; reflexivity.
  - apply transports_getTemplateMessages.
  - unfold getTemplateMessages.
    destruct (String.eqb template "explain"); [rewrite getRagContext_eq |];
      reflexivity.
  - intros Hne retrieve'. unfold getTemplateMessages.
    apply String.eqb_neq in Hne. rewrite Hne. reflexivity.
Qed.

Lemma getTemplateMessages_conversation_witness :
  getTemplateMessages ollama_config
    (with_retrieve (fun _ => Some "ctx") no_collaborators) "refactor" None true
    initial
  = getTemplateMessages ollama_config no_collaborators "refactor" None true
      initial.
Proof.
  destruct (getTemplateMessages_conversation ollama_config no_collaborators
              "refactor" None true initial) as (_ & _ & _ & _ & _ & H).
  apply H. discriminate.
Defined.

End SessionFacts.

(** ** Completion gating ([utils.ts]: the bracket tests,
       [getSkipVariableDeclataion], [getShouldSkipCompletion]) *)

Module Completion.
Import JS.

Section WithConstants.

(** Constants of [common/constants]. *)
Variables ALL_BRACKETS OPENING_BRACKETS CLOSING_BRACKETS : list string.
Variable SKIP_DECLARATION_SYMBOLS : list string.

(** [arr.includes(x)] on an array of strings. *)
Definition includes (arr : list string) (x : string) : bool :=
  existsb (String.eqb x) arr.

Definition getIsBracket (char : string) : bool := includes ALL_BRACKETS char.

Definition getIsClosingBracket (char : string) : bool :=
  includes CLOSING_BRACKETS char.

Definition getIsOpeningBracket (char : string) : bool :=
  includes OPENING_BRACKETS char.

Definition getIsSingleBracket (chars : string) : bool :=
  (len chars =? 1) && getIsBracket chars.

(** [for (const char of chars) { if (!test(char)) return false }
     return true] *)
Fixpoint every_char (test : string -> bool) (chars : string) : bool :=
  match chars with
  | EmptyString => true
  | String c rest => if test (String c "") then every_char test rest else false
  end.

Definition getIsOnlyOpeningBrackets (chars : string) : bool :=
  if negb (truthy chars) then false else every_char getIsOpeningBracket chars.

Definition getIsOnlyClosingBrackets (chars : string) : bool :=
  if negb (truthy chars) then false else every_char getIsClosingBracket chars.

Definition getIsOnlyBrackets (chars : string) : bool :=
  if negb (truthy chars) then false else every_char getIsBracket chars.

(** The two kinds of value that meet in the comparison of
    [getSkipVariableDeclataion]. *)
Inductive primitive : Type :=
| PBoolean (b : bool)
| PString (s : string).

(** [a === b] *)
Definition strict_equal (a b : primitive) : bool :=
  match a, b with
  | PBoolean x, PBoolean y => Bool.eqb x y
  | PString x, PString y => String.eqb x y
  | _, _ => false
  end.

(** [s.at(0)] *)
Definition at_0 (s : string) : option string :=
  match s with
  | EmptyString => None
  | String c _ => Some (String c "")
  end.

Definition getSkipVariableDeclataion (characterBefore : option string)
    (textAfter : string) : bool :=
  if truthy_opt characterBefore
     && includes SKIP_DECLARATION_SYMBOLS (trim (toString_opt characterBefore))
     && negb (len textAfter =? 0)
     && strict_equal (PBoolean (negb (truthy_opt (at_0 textAfter)))) (PString "?")
     && negb (getIsOnlyBrackets textAfter)
  then true
  else false.

Inductive InlineCompletionTriggerKind : Type :=
| Invoke
| Automatic.

(** What [getShouldSkipCompletion] reads from the active editor: the
    character before the cursor and the text after it on the line. *)
Record EditorLine : Type := mkEditorLine {
  charBefore : option string;
  textAfter : string
}.

Definition getShouldSkipCompletion (editor : option EditorLine)
    (triggerKind : InlineCompletionTriggerKind) (autoSuggestEnabled : bool)
    : bool :=
  match editor with
  | None => true
  | Some line =>
      if getSkipVariableDeclataion (charBefore line) (textAfter line) then true
      else
        match triggerKind with
        | Automatic => negb autoSuggestEnabled
        | Invoke => false
        end
  end.

Lemma every_char_app test a b :
  every_char test (a +:+ b) = every_char test a && every_char test b.
Proof.
  induction a as [|c a IH]; [reflexivity |].
  change (String c a +:+ b) with (String c (a +:+ b)). simpl.
  destruct (test (String c "")); [exact IH | reflexivity].
Qed.

Lemma truthy_app a b : truthy a = true -> truthy (a +:+ b) = true.
Proof. destruct a; [discriminate | reflexivity]. Qed.

(** A text is "only brackets" (of each of the three kinds) exactly when
    each of its two non-empty parts is. *)
Theorem only_brackets_of_parts a b :
  a <> "" -> b <> "" ->
  getIsOnlyBrackets (a +:+ b) = getIsOnlyBrackets a && getIsOnlyBrackets b /\
  getIsOnlyOpeningBrackets (a +:+ b)
  = getIsOnlyOpeningBrackets a && getIsOnlyOpeningBrackets b /\
  getIsOnlyClosingBrackets (a +:+ b)
  = getIsOnlyClosingBrackets a && getIsOnlyClosingBrackets b.
Proof.
  intros Ha Hb.
  assert (truthy a = true) as Ta by now destruct a.
  assert (truthy b = true) as Tb by now destruct b.
  unfold getIsOnlyBrackets, getIsOnlyOpeningBrackets, getIsOnlyClosingBrackets.
  rewrite (truthy_app a b Ta), Ta, Tb. simpl.
  now rewrite !every_char_app.
Qed.

(** A single bracket is also a text of only brackets. *)
Theorem single_bracket_is_only_brackets chars :
  getIsSingleBracket chars = true -> getIsOnlyBrackets chars = true.
Proof.
  unfold getIsSingleBracket, getIsOnlyBrackets.
  intros H. apply andb_true_iff in H as [Hlen Hbracket].
  apply Z.eqb_eq in Hlen.
  destruct chars as [|c [|c' rest]]; try (unfold len in Hlen; simpl in Hlen; lia).
  simpl. now rewrite Hbracket.
Qed.

Lemma skip_condition_false characterBefore textAfter :
  getSkipVariableDeclataion characterBefore textAfter = false.
Proof.
  unfold getSkipVariableDeclataion. simpl strict_equal.
  now rewrite andb_false_r.
Qed.

(** [getSkipVariableDeclataion] returns [false] on every input: its fourth
    condition compares a boolean with the string ["?"] by [===]. *)
Theorem getSkipVariableDeclataion_never_skips characterBefore textAfter :
  getSkipVariableDeclataion characterBefore textAfter = false.
Proof.
  unfold getSkipVariableDeclataion.
  assert (strict_equal (PBoolean (negb (truthy_opt (at_0 textAfter))))
            (PString "?") = false) as -> by reflexivity.
  rewrite andb_false_r. reflexivity.
Qed.

(** [getShouldSkipCompletion] skips exactly when there is no editor, or the
    trigger is automatic and auto-suggest is disabled; the text around the
    cursor plays no part. *)
Theorem getShouldSkipCompletion_cases editor triggerKind autoSuggestEnabled :
  getShouldSkipCompletion editor triggerKind autoSuggestEnabled = true <->
  editor = None \/ (triggerKind = Automatic /\ autoSuggestEnabled = false).
Proof.
  unfold getShouldSkipCompletion. destruct editor as [line|].
  - rewrite skip_condition_false.
    destruct triggerKind, autoSuggestEnabled; simpl; split;
      try discriminate; try (intros [[=] | [[=] [=]]]); auto.
  - split; auto.
Qed.

End WithConstants.

Lemma only_brackets_of_parts_witness :
  getIsOnlyBrackets ["("; ")"; "{"; "}"] ("(" +:+ ")x") = true && false.
Proof.
  destruct (only_brackets_of_parts ["("; ")"; "{"; "}"] ["("; "{"] [")"; "}"]
              "(" ")x") as [H _]; [discriminate | discriminate |].
  exact H.
Defined.

Lemma single_bracket_is_only_brackets_witness :
  getIsOnlyBrackets ["("; ")"; "{"; "}"] "{" = true.
Proof.
  apply (single_bracket_is_only_brackets ["("; ")"; "{"; "}"] "{").
  reflexivity.
Defined.

End Completion.
